(** * IndicAI: recommendation pipeline, daily quota and preference folding

    A shallow embedding of the TypeScript sources
      - [lib/types.ts]            (MediaItem),
      - [lib/daily-choices.ts]    (the daily quota kept in localStorage),
      - [lib/gemini-ai.ts]        (parsing of the re-ranker's answer),
      - [lib/recommendations.ts]  (orchestrator, [updateUserProfile]),
      - the interaction module    ([updateUserProfileWithInteraction]),
    followed by the properties of the specification that concern them.

    Conventions of the embedding:
      - a JavaScript [number] that holds an integer is a [Z];
      - a JavaScript string is a [string]; [===] on strings is [=];
      - [localStorage] is a finite map from strings to strings;
      - code that reads or writes [window.localStorage] is a state
        transformer over [World];
      - code that may throw returns an [Outcome]. *)

From Stdlib Require Import ZArith QArith Ascii String.
From stdpp Require Import gmap strings list fin_maps.

#[local] Open Scope string_scope.
#[local] Open Scope list_scope.
#[local] Open Scope Z_scope.

(** ** JavaScript array primitives used by the sources *)

Module JS.

Section Arrays.
Context {A : Type}.

(** [arr.slice(0, end)]: a negative [end] counts from the end of the
    array, and the bound is clamped to [0 .. arr.length]. *)
Definition slice0 (arr : list A) (end_ : Z) : list A :=
  let len := Z.of_nat (length arr) in
  let final := if end_ <? 0 then Z.max (len + end_) 0 else Z.min end_ len in
  take (Z.to_nat final) arr.

Context `{EqDecision A}.

(** [arr.includes(x)] *)
Definition includes (arr : list A) (x : A) : bool := bool_decide (x ∈ arr).

(** [if (!arr.includes(x)) arr.push(x)]; also what [Set.prototype.add]
    does to the insertion order of a [Set]. *)
Definition push_if_absent (arr : list A) (x : A) : list A :=
  if includes arr x then arr else arr ++ [x].

(** [[...new Set(arr)]]: the elements in order of first insertion. *)
Definition spread_Set (arr : list A) : list A :=
  foldl push_if_absent [] arr.

(** [arr.find(p)] is [List.find]; [arr.some(p)] is [existsb]. *)
End Arrays.

End JS.

(** ** [lib/types.ts] *)

Inductive MediaType := movie | series | book | music.

Inductive Action := like | dislike | superlike | skip.

Record MediaItem := {
  id : string;
  type : MediaType;
  title : string;
  description : string;
  imageUrl : string;
  rating : Q;
  year : Z;
  genres : list string;
  duration : option string;
  cast : option (list string);
  director : option string;
  author : option string;
  artist : option string;
  userRating : option Action
}.

Record UserInteraction := {
  itemId : string;
  action : Action;
  timestamp : Z
}.

(** The [interaction] argument of the two profile updaters. *)
Record Interaction := {
  i_itemId : string;
  i_action : Action
}.

(** ** Preference updater

    [updateUserProfile] of [lib/recommendations.ts] and
    [updateUserProfileWithInteraction] of the interaction module. The
    latter awaits [getMediaDetails(interaction.itemId)], which asks the
    catalog over the network and then the bundled data: the lookup is the
    argument [getMediaDetails], and [None] is its [null]. *)

Module Preferences.

(** [for (const genre of item.genres)
       if (!newPreferences.includes(genre)) newPreferences.push(genre)] *)
Definition add_genres (newPreferences : list string) (item : MediaItem)
  : list string :=
  foldl JS.push_if_absent newPreferences (genres item).

(** [action === "like" || action === "superlike"] *)
Definition like_or_superlike (a : Action) : bool :=
  match a with like | superlike => true | dislike | skip => false end.

Definition updateUserProfile (currentPreferences : list string)
    (interaction : Interaction) (allMediaItems : list MediaItem)
  : list string :=
  let item :=
    List.find (λ m, bool_decide (id m = i_itemId interaction)) allMediaItems in
  let newPreferences := currentPreferences in
  let newPreferences :=
    if like_or_superlike (i_action interaction) then
      match item with
      | Some item => add_genres newPreferences item
      | None => newPreferences
      end
    else newPreferences in
  let newPreferences := JS.spread_Set newPreferences in
  JS.slice0 newPreferences 15.

Definition updateUserProfileWithInteraction
    (getMediaDetails : string → option MediaItem)
    (currentPreferences : list string) (interaction : Interaction)
  : list string :=
  match getMediaDetails (i_itemId interaction) with
  | None => currentPreferences
  | Some item =>
      let newPreferences := currentPreferences in
      let newPreferences :=
        if like_or_superlike (i_action interaction)
        then add_genres newPreferences item
        else newPreferences in
      let newPreferences := JS.spread_Set newPreferences in
      JS.slice0 newPreferences 10
  end.

(** A history folded one interaction at a time; every step comes with the
    items, or the lookup, that were at hand when it was processed. *)
Definition fold_updateUserProfile (start : list string)
    (history : list (Interaction * list MediaItem)) : list string :=
  foldl (λ prefs step, updateUserProfile prefs step.1 step.2) start history.

Definition fold_updateUserProfileWithInteraction (start : list string)
    (history : list (Interaction * (string → option MediaItem)))
  : list string :=
  foldl (λ prefs step, updateUserProfileWithInteraction step.2 prefs step.1)
        start history.

(** The invariant of a PreferenceList for a given cap. *)
Definition wf_preferences (cap : nat) (prefs : list string) : Prop :=
  NoDup prefs ∧ (length prefs ≤ cap)%nat.

Definition dislike_or_skip (interaction : Interaction) : Prop :=
  i_action interaction = dislike ∨ i_action interaction = skip.

End Preferences.

(** ** [lib/daily-choices.ts]: the daily quota *)

Module DailyChoices.

Definition DAILY_LIMIT : Z := 20.

Record ChosenItem := {
  c_id : string;
  c_timestamp : Z
}.

Definition CHOSEN_TODAY_KEY : string := "indicai_chosen_today".
Definition LAST_RESET_DATE_KEY : string := "indicai_last_reset_date".

(** [window.localStorage]: [getItem] is the lookup, [setItem] the insertion
    and [removeItem] the deletion of a finite map of strings. The three
    methods are taken not to throw (no exhausted quota, no denied access). *)
Abbreviation Storage := (gmap string string).

(** The global object [window] where there is one. The sources test
    [window.localStorage] against [null] after having tested [window], so
    both absences are kept. *)
Record Window := { localStorage : option Storage }.

(** The execution context: [None] is [typeof window === 'undefined']. *)
Definition World : Type := option Window.

(** What the functions read from the system clock during one call:
    [getCurrentDate()], the local date as [YYYY-MM-DD], and [Date.now()]. *)
Record Clock := {
  getCurrentDate : string;
  Date_now : Z
}.

(** [JSON.stringify] and [JSON.parse] at the type [ChosenItem[]], which is
    the type the sources give to the parsed value: a stored text either
    parses to an array of records or does not parse. [JSON_parse s = None]
    when [JSON.parse(s)] throws its [SyntaxError]. The two laws are all the
    development uses of the platform's JSON: a stringified array parses
    back to itself, and its text is not the empty string (it starts with
    an opening bracket), so it passes the test [!chosenItemsStr]. *)
Class JSON := {
  JSON_stringify : list ChosenItem → string;
  JSON_parse : string → option (list ChosenItem);
  JSON_parse_stringify : ∀ l, JSON_parse (JSON_stringify l) = Some l;
  JSON_stringify_truthy : ∀ l, JSON_stringify l ≠ ""
}.

(** [[...items].sort(() => 0.5 - Math.random())]: the order the engine's
    sort leaves under a comparator that answers at random. All that is
    used of it is that the result is a rearrangement of the array. *)
Class Shuffle := {
  shuffle : list MediaItem → list MediaItem;
  shuffle_Permutation : ∀ l, shuffle l ≡ₚ l
}.

(** State transformers over the execution context. *)
Definition M (A : Type) : Type := World → A * World.

Definition ret {A} (a : A) : M A := λ w, (a, w).
Definition bind {A B} (m : M A) (k : A → M B) : M B :=
  λ w, let '(a, w') := m w in k a w'.

Notation "'let*' x := m 'in' k" := (bind m (λ x, k))
  (at level 10, x name, m at level 100, k at level 200, only parsing).
Notation "m ;; k" := (bind m (λ _, k))
  (at level 100, k at level 200, right associativity, only parsing).

(** [typeof window !== 'undefined'] *)
Definition isClientSide : M bool := λ w, (bool_decide (is_Some w), w).

(** [isClientSide() ? window.localStorage : null]. The handle it returns
    is only tested against [null]; reads and writes go through the three
    methods below, which act on the storage of the current world. *)
Definition getLocalStorage : M (option Storage) :=
  λ w, (match w with Some window => localStorage window | None => None end, w).

Definition getItem (key : string) : M (option string) :=
  λ w, (match w with
        | Some {| localStorage := Some store |} => store !! key
        | _ => None
        end, w).

Definition update_storage (f : Storage → Storage) : M unit :=
  λ w, (tt, match w with
            | Some {| localStorage := Some store |} =>
                Some {| localStorage := Some (f store) |}
            | _ => w
            end).

Definition setItem (key value : string) : M unit :=
  update_storage <[key := value]>.

Definition removeItem (key : string) : M unit :=
  update_storage (delete key).

(** [!s] for a [string | null]: null and the empty string are falsy. *)
Definition falsy (s : option string) : bool :=
  match s with None => true | Some s => bool_decide (s = "") end.

Section Quota.
Context {json : JSON} {random : Shuffle}.
Variable clock : Clock.

Definition shouldResetDailyCount : M bool :=
  let* client := isClientSide in
  if negb client then ret false else
  let* localStorage := getLocalStorage in
  if negb (bool_decide (is_Some localStorage)) then ret false else
  let* lastResetDate := getItem LAST_RESET_DATE_KEY in
  let today := getCurrentDate clock in
  ret (bool_decide (lastResetDate ≠ Some today)).

Definition resetDailyCountIfNeeded : M unit :=
  let* client := isClientSide in
  if negb client then ret tt else
  let* localStorage := getLocalStorage in
  if negb (bool_decide (is_Some localStorage)) then ret tt else
  let* reset := shouldResetDailyCount in
  if reset then
    removeItem CHOSEN_TODAY_KEY;;
    setItem LAST_RESET_DATE_KEY (getCurrentDate clock)
  else ret tt.

Definition getChosenItemsToday : M (list ChosenItem) :=
  let* client := isClientSide in
  if negb client then ret [] else
  resetDailyCountIfNeeded;;
  let* localStorage := getLocalStorage in
  if negb (bool_decide (is_Some localStorage)) then ret [] else
  let* chosenItemsStr := getItem CHOSEN_TODAY_KEY in
  if falsy chosenItemsStr then ret [] else
  match from_option JSON_parse None chosenItemsStr with
  | Some chosenItems => ret chosenItems
  | None => ret []
  end.

Definition addChosenItem (id : string) : M bool :=
  let* client := isClientSide in
  if negb client then ret true else
  resetDailyCountIfNeeded;;
  let* localStorage := getLocalStorage in
  if negb (bool_decide (is_Some localStorage)) then ret true else
  let* chosenItems := getChosenItemsToday in
  if Z.of_nat (length chosenItems) >=? DAILY_LIMIT then ret false else
  let alreadyChosen := existsb (λ item, bool_decide (c_id item = id)) chosenItems in
  if alreadyChosen then ret true else
  let newChosenItem := {| c_id := id; c_timestamp := Date_now clock |} in
  let updatedChosenItems := chosenItems ++ [newChosenItem] in
  setItem CHOSEN_TODAY_KEY (JSON_stringify updatedChosenItems);;
  ret true.

Definition getRemainingChoices : M Z :=
  let* client := isClientSide in
  if negb client then ret DAILY_LIMIT else
  resetDailyCountIfNeeded;;
  let* chosenItems := getChosenItemsToday in
  ret (Z.max 0 (DAILY_LIMIT - Z.of_nat (length chosenItems))).

Definition isDailyLimitReached : M bool :=
  let* client := isClientSide in
  if negb client then ret false else
  let* remaining := getRemainingChoices in
  ret (remaining <=? 0).

Definition filterOutChosenItems (items : list MediaItem) : M (list MediaItem) :=
  let* client := isClientSide in
  if negb client then ret items else
  let* chosenItems := getChosenItemsToday in
  let chosenIds : gset string := list_to_set (c_id <$> chosenItems) in
  ret (filter (λ item, id item ∉ chosenIds) items).

Definition getRandomUnchosenSelection (items : list MediaItem) (count : Z)
  : M (list MediaItem) :=
  let* client := isClientSide in
  if negb client then
    let shuffled := shuffle items in
    ret (JS.slice0 shuffled (Z.min count (Z.of_nat (length items))))
  else
  let* unchosenItems := filterOutChosenItems items in
  let* remainingChoices := getRemainingChoices in
  let maxSelectable := Z.min count remainingChoices in
  if maxSelectable <=? 0 then ret [] else
  let shuffled := shuffle unchosenItems in
  ret (JS.slice0 shuffled maxSelectable).

End Quota.

(** A browser whose [window.localStorage] is [store]. *)
Definition browser_with (store : Storage) : World :=
  Some {| localStorage := Some store |}.

(** The reset rule on the store: if the stored date is not the current
    date, the chosen list is removed and the date overwritten. *)
Definition reconcile (clock : Clock) (store : Storage) : Storage :=
  if bool_decide (store !! LAST_RESET_DATE_KEY ≠ Some (getCurrentDate clock))
  then <[LAST_RESET_DATE_KEY := getCurrentDate clock]> (delete CHOSEN_TODAY_KEY store)
  else store.

(** The records a store holds: none when the key is missing, its text
    empty or not parseable. *)
Definition stored_records {json : JSON} (store : Storage) : list ChosenItem :=
  match store !! CHOSEN_TODAY_KEY with
  | None => []
  | Some text =>
      if bool_decide (text = "") then [] else default [] (JSON_parse text)
  end.

(** The ids of a list of records. *)
Definition chosen_ids (records : list ChosenItem) : list string :=
  c_id <$> records.

(** [{ id, timestamp: Date.now() }] *)
Definition new_record (clock : Clock) (id : string) : ChosenItem :=
  {| c_id := id; c_timestamp := Date_now clock |}.

(** The contexts without persistent storage: no [window], or a [window]
    whose [localStorage] is [null]. *)
Definition no_storage (w : World) : Prop :=
  w = None ∨ w = Some {| localStorage := None |}.

End DailyChoices.

(** ** Exceptions *)

Inductive Outcome (A : Type) :=
| Return (a : A)
| Throw (error : string).
Arguments Return {A} a.
Arguments Throw {A} error.

(** ** [lib/gemini-ai.ts]: reading the re-ranker's answer *)

Module GeminiAI.

(** [\d]: an ASCII digit. *)
Definition is_digit (c : ascii) : bool :=
  let n := nat_of_ascii c in ((48 <=? n) && (n <=? 57))%nat.

(** [\w]: an ASCII letter, an ASCII digit or the underscore. *)
Definition is_word (c : ascii) : bool :=
  let n := nat_of_ascii c in
  (((48 <=? n) && (n <=? 57)) || ((65 <=? n) && (n <=? 90))
   || ((97 <=? n) && (n <=? 122)) || (n =? 95))%nat.

(** [response.match(/\b\d+\b/g) || []], read from left to right. A match
    is a run of digits with a word boundary on both sides. The scan is in
    one of three states:
      - [AtBoundary]: the previous character is not a word character (or
        there is none), so a digit here starts a run;
      - [InWord]: the previous character is a word character and no run
        is open, so a digit here has no boundary before it;
      - [InRun r]: the digits [r] were read since the last boundary.
    A run ends in a match when a non-word character or the end of the
    text follows it. When a letter or an underscore follows, there is no
    boundary after the run nor inside it, and the run is dropped. *)
Inductive ScanState :=
| AtBoundary
| InWord
| InRun (run : string).

Fixpoint scan (st : ScanState) (text : string) : list string :=
  match text with
  | EmptyString =>
      match st with InRun run => [run] | _ => [] end
  | String c rest =>
      match st with
      | AtBoundary =>
          if is_digit c then scan (InRun (String c EmptyString)) rest
          else if is_word c then scan InWord rest
          else scan AtBoundary rest
      | InWord =>
          if is_word c then scan InWord rest else scan AtBoundary rest
      | InRun run =>
          if is_digit c then scan (InRun (run +:+ String c EmptyString)) rest
          else if is_word c then scan InWord rest
          else run :: scan AtBoundary rest
      end
  end.

Definition match_numbers (response : string) : list string :=
  scan AtBoundary response.

(** [parseGeminiResponse]. Its [catch] branch answers an exception of
    [String.prototype.match], [filter] or [Set], none of which throws on
    a string and an array; it is not reachable and has no counterpart. *)
Definition parseGeminiResponse (response : string)
    (availableItems : list MediaItem) : list string :=
  let idMatches := match_numbers response in
  let validIds :=
    filter (λ id', existsb (λ item, bool_decide (id item = id')) availableItems = true)
           idMatches in
  JS.slice0 (JS.spread_Set validIds) 10.

(** The re-ranking service as [getGeminiPersonalizedRecommendations] sees
    it: the credential of the environment, and what the request yields
    for a given profile and candidate list (these make up the prompt):
    the text of the first candidate answer, [""] when the answer has
    none, or an exception (network failure, status not ok, body that is
    not JSON). *)
Record Service := {
  GEMINI_API_KEY : option string;
  generateContent :
    list string → list UserInteraction → list MediaItem → Outcome string
}.

(** [userHistory.slice(-20)]: the last 20 interactions. *)
Definition last20 (userHistory : list UserInteraction) : list UserInteraction :=
  drop (length userHistory - 20)%nat userHistory.

(** [recommendedIds.map(id => tmdbRecommendations.find(item => item.id === id))
      .filter(item => item !== undefined).slice(0, 10)] *)
Definition reorder (recommendedIds : list string)
    (tmdbRecommendations : list MediaItem) : list MediaItem :=
  let found :=
    (λ id', List.find (λ item, bool_decide (id item = id')) tmdbRecommendations)
      <$> recommendedIds in
  JS.slice0 (omap (λ item, item) found) 10.

Definition getGeminiPersonalizedRecommendations (service : Service)
    (userPreferences : list string) (userHistory : list UserInteraction)
    (tmdbRecommendations : list MediaItem) : list MediaItem :=
  if DailyChoices.falsy (GEMINI_API_KEY service) then tmdbRecommendations else
  match generateContent service userPreferences (last20 userHistory)
                        tmdbRecommendations with
  | Throw _ => tmdbRecommendations
  | Return geminiResponse =>
      let recommendedIds := parseGeminiResponse geminiResponse tmdbRecommendations in
      reorder recommendedIds tmdbRecommendations
  end.

(** The extraction in the words of the specification: the first [n]
    unique tokens that match a candidate id, in order of appearance;
    tokens that match no candidate are ignored. [seen] holds the tokens
    already taken. *)
Fixpoint first_unique_matching (n : nat) (seen : list string)
    (candidates : list MediaItem) (tokens : list string) : list string :=
  match tokens with
  | [] => []
  | token :: rest =>
      match n with
      | O => []
      | S n' =>
          if bool_decide (token ∈ id <$> candidates ∧ token ∉ seen)
          then token :: first_unique_matching n' (token :: seen) candidates rest
          else first_unique_matching n seen candidates rest
      end
  end.

End GeminiAI.

(** ** [lib/recommendations.ts]: the orchestrator *)

Module Recommendations.

Import DailyChoices.

(** Computations that act on the execution context and may throw. *)
Definition T (A : Type) : Type := World → Outcome A * World.

Definition ret {A} (a : A) : T A := λ w, (Return a, w).
Definition bind {A B} (m : T A) (k : A → T B) : T B :=
  λ w, match m w with
       | (Return a, w') => k a w'
       | (Throw e, w') => (Throw e, w')
       end.
Definition lift {A} (m : M A) : T A := λ w, let '(a, w') := m w in (Return a, w').

(** [try { body } catch (error) { handler }] *)
Definition try_catch {A} (body : T A) (handler : string → T A) : T A :=
  λ w, match body w with
       | (Return a, w') => (Return a, w')
       | (Throw e, w') => handler e w'
       end.

Notation "'let!' x := m 'in' k" := (bind m (λ x, k))
  (at level 10, x name, m at level 100, k at level 200, only parsing).

(** [geminiRecommendations.length > 0 ? geminiRecommendations
                                      : tmdbRecommendations] *)
Definition finalRecommendations (geminiRecommendations tmdbRecommendations
    : list MediaItem) : list MediaItem :=
  if 0 <? Z.of_nat (length geminiRecommendations)
  then geminiRecommendations else tmdbRecommendations.

Section Orchestrator.
Context {json : JSON} {random : Shuffle}.
Variable clock : Clock.

(** The catalog queries of [lib/tmdb-api.ts] go over the network; they
    may read and reset the quota store on their way and, as far as the
    orchestrator can tell, may throw. *)
Variable fetchTmdbRecommendations : list string → T (list MediaItem).
Variable fetchPopularContent : T (list MediaItem).
Variable gemini : GeminiAI.Service.

(** The bundled data of [lib/mock-data.ts], which the sources import. *)
Variable mockMediaItems : list MediaItem.

Definition getPersonalizedRecommendations (userPreferences : list string)
    (userHistory : list UserInteraction) : T (list MediaItem) :=
  try_catch
    (let! tmdbRecommendations := fetchTmdbRecommendations userPreferences in
     let! tmdbRecommendations :=
       if Z.of_nat (length tmdbRecommendations) =? 0
       then fetchPopularContent else ret tmdbRecommendations in
     if Z.of_nat (length tmdbRecommendations) =? 0 then
       lift (getRandomUnchosenSelection clock mockMediaItems 10)
     else
       let geminiRecommendations :=
         GeminiAI.getGeminiPersonalizedRecommendations
           gemini userPreferences userHistory tmdbRecommendations in
       let finalRecommendations :=
         finalRecommendations geminiRecommendations tmdbRecommendations in
       lift (getRandomUnchosenSelection clock finalRecommendations 10))
    (λ error, lift (getRandomUnchosenSelection clock mockMediaItems 10)).

End Orchestrator.

End Recommendations.

(** ** Sequences of calls to the quota store *)

Module QuotaCalls.

Import DailyChoices.

(** A call to one of the exported functions of [lib/daily-choices.ts]. *)
Inductive Call :=
| call_getChosenItemsToday
| call_addChosenItem (id : string)
| call_getRemainingChoices
| call_isDailyLimitReached
| call_filterOutChosenItems (items : list MediaItem)
| call_getRandomUnchosenSelection (items : list MediaItem) (count : Z).

(** The execution context a call leaves behind. *)
Definition after_call {json : JSON} {random : Shuffle} (clock : Clock)
    (call : Call) (w : World) : World :=
  match call with
  | call_getChosenItemsToday => (getChosenItemsToday clock w).2
  | call_addChosenItem id => (addChosenItem clock id w).2
  | call_getRemainingChoices => (getRemainingChoices clock w).2
  | call_isDailyLimitReached => (isDailyLimitReached clock w).2
  | call_filterOutChosenItems items => (filterOutChosenItems clock items w).2
  | call_getRandomUnchosenSelection items count =>
      (getRandomUnchosenSelection clock items count w).2
  end.

(** Calls made one after the other, each at its own time. *)
Definition after_calls {json : JSON} {random : Shuffle}
    (calls : list (Clock * Call)) (w : World) : World :=
  foldl (λ w step, after_call step.1 step.2 w) w calls.

(** What a caller does with a selection it shows: it registers each
    returned item with [addChosenItem], in order. *)
Definition register_all {json : JSON} (clock : Clock)
    (shown : list MediaItem) (w : World) : World :=
  foldl (λ w item, (addChosenItem clock (id item) w).2) w shown.

(** The invariant of the stored records: at most [DAILY_LIMIT] of them,
    with distinct ids. *)
Definition within_quota {json : JSON} (store : Storage) : Prop :=
  (Z.of_nat (length (stored_records store)) ≤ DAILY_LIMIT)
  ∧ NoDup (chosen_ids (stored_records store)).

End QuotaCalls.

(** ** [lib/tmdb-api.ts]: the catalog queries *)

Module TmdbApi.

Import DailyChoices.

(** The two families of endpoints, [/movie/...] and [/tv/...]. *)
Inductive Endpoint := ep_movie | ep_tv.

Record TmdbGenre := {
  g_id : Z;
  g_name : string
}.

(** What the catalog answers to the requests of one call. Each field is
    the outcome of [fetchFromTmdb] on an endpoint, followed where the
    sources do so by [.results.map(tmdbItemToMediaItem)]; it is [Throw]
    when the request fails, when its status is not ok, or when the answer
    does not have the expected shape. *)
Record Network := {
  genre_list : Endpoint → Outcome (list TmdbGenre);
  discover : Endpoint → list Z → Outcome (list MediaItem);
  popular : Endpoint → Outcome (list MediaItem);
  search : Endpoint → string → Outcome (list MediaItem);
  details : Endpoint → string → Outcome MediaItem
}.

(** [s.includes(sub)] on strings. *)
Fixpoint str_includes (s sub : string) : bool :=
  String.prefix sub s
  || match s with
     | EmptyString => false
     | String _ rest => str_includes rest sub
     end.

(** Two awaited requests whose results are concatenated: both must
    succeed. This is [Promise.all] of two requests as well as two requests
    awaited in turn. *)
Definition both {A} (first second : Outcome (list A)) : Outcome (list A) :=
  match first, second with
  | Return xs, Return ys => Return (xs ++ ys)
  | Throw e, _ => Throw e
  | _, Throw e => Throw e
  end.

Section Catalog.
Context {json : JSON} {random : Shuffle}.
Variable clock : Clock.

(** [String.prototype.toLowerCase], of the platform. *)
Variable toLowerCase : string → string.

(** [typeof window !== 'undefined' && isDailyLimitReached()] *)
Definition limit_reached_on_client : M bool :=
  let* client := isClientSide in
  if client then isDailyLimitReached clock else ret false.

Definition fetchPopularContent (net : Network) : M (list MediaItem) :=
  let* reached := limit_reached_on_client in
  if reached then ret [] else
  match both (popular net ep_movie) (popular net ep_tv) with
  | Return allItems => getRandomUnchosenSelection clock allItems 20
  | Throw _ => ret []
  end.

(** [g.name.toLowerCase() === pref.toLowerCase()
     || g.name.toLowerCase().includes(pref.toLowerCase())
     || pref.toLowerCase().includes(g.name.toLowerCase())] *)
Definition genre_matches (pref : string) (g : TmdbGenre) : bool :=
  bool_decide (toLowerCase (g_name g) = toLowerCase pref)
  || str_includes (toLowerCase (g_name g)) (toLowerCase pref)
  || str_includes (toLowerCase pref) (toLowerCase (g_name g)).

(** The body of [genres.forEach]: the first genre that matches the
    preference, if any, gives its id unless the id is there already. *)
Definition select_genre_id (allGenres : list TmdbGenre)
    (userSelectedGenreIds : list Z) (pref : string) : list Z :=
  match List.find (genre_matches pref) allGenres with
  | Some matchingGenre =>
      if negb (JS.includes userSelectedGenreIds (g_id matchingGenre))
      then userSelectedGenreIds ++ [g_id matchingGenre]
      else userSelectedGenreIds
  | None => userSelectedGenreIds
  end.

Definition select_genre_ids (allGenres : list TmdbGenre)
    (genres : list string) : list Z :=
  foldl (select_genre_id allGenres) [] genres.

Definition fetchTmdbRecommendations (net : Network) (genres : list string)
  : M (list MediaItem) :=
  let* reached := limit_reached_on_client in
  if reached then ret [] else
  match both (genre_list net ep_movie) (genre_list net ep_tv) with
  | Throw _ => ret []
  | Return allGenres =>
      let userSelectedGenreIds := select_genre_ids allGenres genres in
      if 0 <? Z.of_nat (length userSelectedGenreIds) then
        match both (discover net ep_movie userSelectedGenreIds)
                   (discover net ep_tv userSelectedGenreIds) with
        | Return allRecommendations =>
            getRandomUnchosenSelection clock allRecommendations 20
        | Throw _ => ret []
        end
      else
        let* allRecommendations := fetchPopularContent net in
        getRandomUnchosenSelection clock allRecommendations 20
  end.

(** The items [fetchTmdbRecommendations] selects from, once the guard is
    passed and the stored date reconciled: the discovered items when a
    genre was selected, what [fetchPopularContent] returns otherwise;
    none when a request fails. *)
Definition recommendation_source (net : Network) (genres : list string)
    (w : World) : option (list MediaItem) :=
  match both (genre_list net ep_movie) (genre_list net ep_tv) with
  | Throw _ => None
  | Return allGenres =>
      if 0 <? Z.of_nat (length (select_genre_ids allGenres genres)) then
        match both (discover net ep_movie (select_genre_ids allGenres genres))
                   (discover net ep_tv (select_genre_ids allGenres genres)) with
        | Return allRecommendations => Some allRecommendations
        | Throw _ => None
        end
      else Some (fetchPopularContent net (getChosenItemsToday clock w).2).1
  end.

Definition searchTmdbContent (net : Network) (query : string)
  : M (list MediaItem) :=
  let* reached := limit_reached_on_client in
  if reached then ret [] else
  match both (search net ep_movie query) (search net ep_tv query) with
  | Return allSearchResults =>
      getRandomUnchosenSelection clock allSearchResults 20
  | Throw _ => ret []
  end.

Definition fetchTmdbDetails (net : Network) (mediaType : Endpoint)
    (id : string) : option MediaItem :=
  match details net mediaType id with
  | Return item => Some item
  | Throw _ => None
  end.

End Catalog.

End TmdbApi.

(** ** [lib/recommendations.ts], continued: search and details *)

Module MediaLookup.

Import DailyChoices Recommendations TmdbApi.

Section Lookup.
Context {json : JSON} {random : Shuffle}.
Variable clock : Clock.
Variable toLowerCase : string → string.

(** The catalog functions as these callers see them: they may throw. *)
Variable searchTmdbContent : string → T (list MediaItem).
Variable fetchTmdbDetails : Endpoint → string → T (option MediaItem).
Variable mockMediaItems : list MediaItem.

(** [mockMediaItems.filter(item =>
       item.title.toLowerCase().includes(query.toLowerCase()))] *)
Definition mock_results (query : string) : list MediaItem :=
  filter (λ item, str_includes (toLowerCase (title item)) (toLowerCase query) = true)
         mockMediaItems.

Definition searchMedia (query : string) : T (list MediaItem) :=
  try_catch
    (let! apiResults := searchTmdbContent query in
     if Z.of_nat (length apiResults) =? 0 then
       lift (getRandomUnchosenSelection clock (mock_results query) 10)
     else
       lift (getRandomUnchosenSelection clock apiResults 10))
    (λ error, lift (getRandomUnchosenSelection clock (mock_results query) 10)).

(** [mockMediaItems.find(item => item.id === id) || null] *)
Definition mock_item (id' : string) : option MediaItem :=
  List.find (λ item, bool_decide (id item = id')) mockMediaItems.

Definition getMediaDetails (id : string) : T (option MediaItem) :=
  try_catch
    (let! details :=
       try_catch
         (let! details := fetchTmdbDetails ep_movie id in
          match details with
          | Some _ => ret details
          | None => fetchTmdbDetails ep_tv id
          end)
         (λ error, ret None) in
     match details with
     | Some _ => ret details
     | None => ret (mock_item id)
     end)
    (λ error, ret (mock_item id)).

End Lookup.

End MediaLookup.

(** ** [lib/api-integration.ts] *)

Module ApiIntegration.

Import Recommendations TmdbApi.

Section Wrappers.
Variable fetchTmdbRecommendations : list string → T (list MediaItem).
Variable searchTmdbContent : string → T (list MediaItem).
Variable fetchTmdbDetails : Endpoint → string → T (option MediaItem).

Definition fetchRecommendationsFromApi (userPreferences : list string)
  : T (list MediaItem) :=
  try_catch (fetchTmdbRecommendations userPreferences) (λ error, ret []).

Definition searchMediaFromApi (query : string) : T (list MediaItem) :=
  try_catch (searchTmdbContent query) (λ error, ret []).

Definition getMediaDetailsFromApi (id : string) : T (option MediaItem) :=
  try_catch
    (let! details := fetchTmdbDetails ep_movie id in
     match details with
     | Some _ => ret details
     | None => fetchTmdbDetails ep_tv id
     end)
    (λ error, ret None).

End Wrappers.

End ApiIntegration.

(** ** The interaction module, with the lookup it awaits *)

Module Interactions.

Import Recommendations.

Section Interactions.
Variable getMediaDetails : string → T (option MediaItem).

(** [updateUserProfileWithInteraction] with its
    [await getMediaDetails(interaction.itemId)]: what follows the lookup
    is the function of [Preferences] at the item found. *)
Definition updateUserProfileWithInteraction (currentPreferences : list string)
    (interaction : Interaction) : T (list string) :=
  let! item := getMediaDetails (i_itemId interaction) in
  ret (Preferences.updateUserProfileWithInteraction
         (λ _, item) currentPreferences interaction).

(** [processUserInteraction]: the value is what [onUpdatePreferences]
    receives. *)
Definition processUserInteraction (itemId : string) (action : Action)
    (currentPreferences : list string) : T (list string) :=
  updateUserProfileWithInteraction currentPreferences
    {| i_itemId := itemId; i_action := action |}.

End Interactions.

End Interactions.

(** ** Answers of the re-ranker in the format the prompt asks for *)

Module Answers.

(** A non-empty string of ASCII digits. *)
Fixpoint all_digits (s : string) : bool :=
  match s with
  | EmptyString => true
  | String c rest => GeminiAI.is_digit c && all_digits rest
  end.

Definition numeric (s : string) : Prop :=
  s ≠ EmptyString ∧ all_digits s = true.

(** [ids.join(sep)] for a separator of one character. *)
Fixpoint joined (sep : ascii) (ids : list string) : string :=
  match ids with
  | [] => EmptyString
  | i :: rest =>
      match rest with
      | [] => i
      | _ :: _ => i +:+ String sep (joined sep rest)
      end
  end.

(** The line feed. *)
Definition newline : ascii := ascii_of_nat 10.

End Answers.

(** ** Instances to run the embedding on

    The properties below hold for every [JSON] and every [Shuffle]. To
    evaluate the functions on concrete inputs, two shuffles and a codec
    that satisfies the laws of [JSON] are given here. The codec writes the
    number of records in binary, then for each record its id, character by
    character, and its timestamp in binary. *)

Module Instances.

Import DailyChoices.

Definition identity_shuffle : Shuffle :=
  {| shuffle := λ l, l; shuffle_Permutation := λ l, reflexivity l |}.

Definition reverse_shuffle : Shuffle :=
  {| shuffle := reverse; shuffle_Permutation := reverse_Permutation |}.

Fixpoint enc_pos (p : positive) (rest : string) : string :=
  match p with
  | xI q => String "1" (enc_pos q rest)
  | xO q => String "0" (enc_pos q rest)
  | xH => String "." rest
  end.

Fixpoint dec_pos (s : string) : option (positive * string) :=
  match s with
  | EmptyString => None
  | String c t =>
      if Ascii.eqb c "1" then '(p, r) ← dec_pos t; Some (xI p, r)
      else if Ascii.eqb c "0" then '(p, r) ← dec_pos t; Some (xO p, r)
      else if Ascii.eqb c "." then Some (xH, t)
      else None
  end.

Definition enc_Z (z : Z) (rest : string) : string :=
  match z with
  | Z0 => String "z" rest
  | Zpos p => String "+" (enc_pos p rest)
  | Zneg p => String "-" (enc_pos p rest)
  end.

Definition dec_Z (s : string) : option (Z * string) :=
  match s with
  | EmptyString => None
  | String c t =>
      if Ascii.eqb c "z" then Some (Z0, t)
      else if Ascii.eqb c "+" then '(p, r) ← dec_pos t; Some (Zpos p, r)
      else if Ascii.eqb c "-" then '(p, r) ← dec_pos t; Some (Zneg p, r)
      else None
  end.

Fixpoint enc_str (s : string) (rest : string) : string :=
  match s with
  | EmptyString => String "e" rest
  | String c t => String "c" (String c (enc_str t rest))
  end.

Fixpoint dec_str (s : string) : option (string * string) :=
  match s with
  | String tag t =>
      if Ascii.eqb tag "e" then Some (EmptyString, t)
      else if Ascii.eqb tag "c" then
        match t with
        | String c t' => '(x, r) ← dec_str t'; Some (String c x, r)
        | EmptyString => None
        end
      else None
  | EmptyString => None
  end.

Fixpoint enc_records (l : list ChosenItem) (rest : string) : string :=
  match l with
  | [] => rest
  | item :: l' =>
      enc_str (c_id item) (enc_Z (c_timestamp item) (enc_records l' rest))
  end.

Fixpoint dec_records (n : nat) (s : string) : option (list ChosenItem * string) :=
  match n with
  | O => Some ([], s)
  | S n' =>
      '(i, r1) ← dec_str s;
      '(t, r2) ← dec_Z r1;
      '(l, r3) ← dec_records n' r2;
      Some ({| c_id := i; c_timestamp := t |} :: l, r3)
  end.

Definition stringify (l : list ChosenItem) : string :=
  enc_pos (Pos.of_succ_nat (length l)) (enc_records l EmptyString).

Definition parse (s : string) : option (list ChosenItem) :=
  '(p, r) ← dec_pos s;
  '(l, r') ← dec_records (Nat.pred (Pos.to_nat p)) r;
  if bool_decide (r' = EmptyString) then Some l else None.

(** An item of which only the id and the genres matter. *)
Definition item (i : string) (gs : list string) : MediaItem := {|
  id := i; type := movie; title := i; description := EmptyString;
  imageUrl := EmptyString; rating := 0%Q; year := 0; genres := gs;
  duration := None; cast := None; director := None; author := None;
  artist := None; userRating := None
|}.

(** A store that holds the given records under the given date. *)
Definition store_of {json : JSON} (date : string) (records : list ChosenItem) : Storage :=
  <[CHOSEN_TODAY_KEY := JSON_stringify records]> (<[LAST_RESET_DATE_KEY := date]> ∅).

(** The second of May, and the first. *)
Definition may_2 : Clock :=
  {| getCurrentDate := "2024-05-02"; Date_now := 1714644000000 |}.
Definition may_1 : Clock :=
  {| getCurrentDate := "2024-05-01"; Date_now := 1714557600000 |}.

(** [n] records with the ids [n], ..., [1] written in unary. *)
Fixpoint records (n : nat) : list ChosenItem :=
  match n with
  | O => []
  | S n' => {| c_id := string_of_list_ascii (replicate n "1"%char);
               c_timestamp := Z.of_nat n |} :: records n'
  end.

End Instances.

(** * Properties *)

(** ** The codec of the examples satisfies the laws of [JSON] *)

Module Codec.

Import DailyChoices Instances.

Lemma dec_enc_pos p rest : dec_pos (enc_pos p rest) = Some (p, rest).
Proof. induction p as [q IH|q IH|]; simpl; by rewrite ?IH. Qed.

Lemma dec_enc_Z z rest : dec_Z (enc_Z z rest) = Some (z, rest).
Proof. destruct z; simpl; by rewrite ?dec_enc_pos. Qed.

Lemma dec_enc_str s rest : dec_str (enc_str s rest) = Some (s, rest).
Proof. induction s as [|c t IH]; simpl; by rewrite ?IH. Qed.

Lemma dec_enc_records l rest :
  dec_records (length l) (enc_records l rest) = Some (l, rest).
Proof.
  induction l as [|[i t] l IH]; simpl; [done|].
  rewrite dec_enc_str. simpl. rewrite dec_enc_Z. simpl. by rewrite IH.
Qed.

Lemma parse_stringify l : parse (stringify l) = Some l.
Proof.
  unfold parse, stringify.
  rewrite dec_enc_pos. simpl.
  rewrite SuccNat2Pos.pred_id, dec_enc_records. reflexivity.
Qed.

Lemma stringify_truthy l : stringify l ≠ EmptyString.
Proof. unfold stringify. by destruct (Pos.of_succ_nat (length l)). Qed.

Definition prefix_codec : JSON := {|
  JSON_stringify := stringify;
  JSON_parse := parse;
  JSON_parse_stringify := parse_stringify;
  JSON_stringify_truthy := stringify_truthy
|}.

End Codec.

(** ** Facts about the array primitives *)

Module JSFacts.
Import JS.

Section Arrays.
Context {A : Type} `{EqDecision A}.
Implicit Types (l acc : list A) (x : A).

Lemma slice0_nonneg l n : 0 ≤ n → slice0 l n = take (Z.to_nat n) l.
Proof.
  intros Hn. unfold slice0.
  destruct (Z.ltb_spec n 0) as [?|_]; [lia|].
  destruct (Z.min_spec n (Z.of_nat (length l))) as [[_ ->]|[Hle ->]]; [done|].
  rewrite Nat2Z.id, !take_ge; [done|lia..].
Qed.

Lemma slice0_prefix l n : slice0 l n `prefix_of` l.
Proof. apply prefix_take. Qed.

Lemma slice0_length l n :
  0 ≤ n → length (slice0 l n) = Z.to_nat (Z.min n (Z.of_nat (length l))).
Proof. intros Hn. rewrite slice0_nonneg, length_take by done. lia. Qed.

Lemma slice0_submseteq l n : slice0 l n ⊆+ l.
Proof. apply submseteq_take. Qed.

Lemma slice0_NoDup l n : NoDup l → NoDup (slice0 l n).
Proof. intros Hl. unfold slice0. by eapply sublist_NoDup; [|apply sublist_take]. Qed.

Lemma push_if_absent_NoDup acc x : NoDup acc → NoDup (push_if_absent acc x).
Proof.
  intros Hacc. unfold push_if_absent, includes. case_bool_decide; [done|].
  apply NoDup_app. split_and!; [done| |apply NoDup_singleton].
  intros y Hy ->%list_elem_of_singleton. done.
Qed.

Lemma foldl_push_NoDup acc l : NoDup acc → NoDup (foldl push_if_absent acc l).
Proof.
  revert acc. induction l as [|x l IH]; intros acc Hacc; simpl; [done|].
  by apply IH, push_if_absent_NoDup.
Qed.

Lemma foldl_push_fresh acc l :
  NoDup (acc ++ l) → foldl push_if_absent acc l = acc ++ l.
Proof.
  revert acc. induction l as [|x l IH]; intros acc Hnd; simpl.
  - by rewrite app_nil_r.
  - assert (x ∉ acc) as Hx.
    { apply NoDup_app in Hnd as (_ & Hdisj & _). intros Hin.
      apply (Hdisj x Hin). by left. }
    unfold push_if_absent at 2, includes.
    rewrite bool_decide_eq_false_2 by done.
    rewrite IH; rewrite <- app_assoc; done.
Qed.

Lemma foldl_push_elem_of acc l x :
  x ∈ foldl push_if_absent acc l ↔ x ∈ acc ∨ x ∈ l.
Proof.
  revert acc. induction l as [|y l IH]; intros acc; simpl.
  - rewrite elem_of_nil. tauto.
  - rewrite IH, elem_of_cons. unfold push_if_absent, includes.
    case_bool_decide as Hy.
    + split; [tauto|]. intros [?|[->|?]]; tauto.
    + rewrite elem_of_app, list_elem_of_singleton. tauto.
Qed.

Lemma foldl_push_prefix acc l : acc `prefix_of` foldl push_if_absent acc l.
Proof.
  revert acc. induction l as [|y l IH]; intros acc; simpl; [done|].
  etrans; [|apply IH]. unfold push_if_absent.
  destruct (includes acc y); [done|]. by apply prefix_app_r.
Qed.

Lemma spread_Set_NoDup l : NoDup (spread_Set l).
Proof. apply foldl_push_NoDup, NoDup_nil_2. Qed.

Lemma spread_Set_fresh l : NoDup l → spread_Set l = l.
Proof. intros Hl. by apply (foldl_push_fresh []). Qed.

Lemma spread_Set_elem_of l x : x ∈ spread_Set l ↔ x ∈ l.
Proof. unfold spread_Set. rewrite foldl_push_elem_of, elem_of_nil. tauto. Qed.
End Arrays.
End JSFacts.

(** ** The preference updater *)

Module PreferencesFacts.
Import JS JSFacts Preferences Instances.

Lemma dislike_or_skip_not_positive interaction :
  dislike_or_skip interaction → like_or_superlike (i_action interaction) = false.
Proof. by intros [-> | ->]. Qed.

Lemma capped_wf (cap : nat) (prefs : list string) :
  wf_preferences cap (slice0 (spread_Set prefs) (Z.of_nat cap)).
Proof.
  split.
  - apply slice0_NoDup, spread_Set_NoDup.
  - rewrite slice0_length by lia. lia.
Qed.

Lemma capped_fixed (cap : nat) (prefs : list string) :
  wf_preferences cap prefs → slice0 (spread_Set prefs) (Z.of_nat cap) = prefs.
Proof.
  intros [Hnd Hlen]. rewrite spread_Set_fresh by done.
  rewrite slice0_nonneg by lia. apply take_ge. lia.
Qed.

Lemma updateUserProfile_capped prefs interaction all :
  ∃ l, updateUserProfile prefs interaction all = slice0 (spread_Set l) 15.
Proof. unfold updateUserProfile. eauto. Qed.

Lemma updateUserProfile_wf prefs interaction all :
  wf_preferences 15 (updateUserProfile prefs interaction all).
Proof.
  destruct (updateUserProfile_capped prefs interaction all) as [l ->].
  apply (capped_wf 15).
Qed.

Lemma updateUserProfileWithInteraction_wf lookup prefs interaction :
  wf_preferences 10 prefs →
  wf_preferences 10 (updateUserProfileWithInteraction lookup prefs interaction).
Proof.
  intros Hwf. unfold updateUserProfileWithInteraction.
  destruct (lookup _); [|done]. apply (capped_wf 10).
Qed.

(** C3 (as amended). The updater leaves the preferences as they are only
    up to its closing steps. [updateUserProfileWithInteraction] returns
    [currentPreferences] itself when the item is not found. In the other
    cases without effect (a found item with [dislike] or [skip];
    [updateUserProfile] with an item that is not found, or with [dislike]
    or [skip]) the result is [currentPreferences] with duplicates removed,
    first occurrence kept, and cut to the cap; that is [currentPreferences]
    whenever it has no duplicate and is within the cap. *)
Theorem updater_without_effect (currentPreferences : list string)
    (interaction : Interaction) :
  (∀ getMediaDetails,
      getMediaDetails (i_itemId interaction) = None →
      updateUserProfileWithInteraction getMediaDetails currentPreferences interaction
      = currentPreferences)
  ∧ (∀ getMediaDetails,
      dislike_or_skip interaction →
      is_Some (getMediaDetails (i_itemId interaction)) →
      updateUserProfileWithInteraction getMediaDetails currentPreferences interaction
      = slice0 (spread_Set currentPreferences) 10)
  ∧ (∀ allMediaItems,
      List.find (λ m, bool_decide (id m = i_itemId interaction)) allMediaItems = None
      ∨ dislike_or_skip interaction →
      updateUserProfile currentPreferences interaction allMediaItems
      = slice0 (spread_Set currentPreferences) 15)
  ∧ (∀ cap : nat,
      wf_preferences cap currentPreferences →
      slice0 (spread_Set currentPreferences) (Z.of_nat cap) = currentPreferences).
Proof.
  split_and!.
  - intros lookup Hnone. unfold updateUserProfileWithInteraction. by rewrite Hnone.
  - intros lookup Hact [item Hitem]. unfold updateUserProfileWithInteraction.
    by rewrite Hitem, dislike_or_skip_not_positive.
  - intros all [Hnone|Hact]; unfold updateUserProfile.
    + rewrite Hnone. by destruct (like_or_superlike _).
    + by rewrite dislike_or_skip_not_positive.
  - intros cap. apply capped_fixed.
Qed.

(** C5. A PreferenceList without duplicates and within the cap stays so
    under every single call of the updater and under every history folded
    one interaction at a time: cap 15 for [updateUserProfile], cap 10 for
    [updateUserProfileWithInteraction]. *)
Theorem preference_invariant (start : list string) :
  (wf_preferences 15 start →
     (∀ interaction allMediaItems,
        wf_preferences 15 (updateUserProfile start interaction allMediaItems))
     ∧ ∀ history, wf_preferences 15 (fold_updateUserProfile start history))
  ∧ (wf_preferences 10 start →
     (∀ getMediaDetails interaction,
        wf_preferences 10
          (updateUserProfileWithInteraction getMediaDetails start interaction))
     ∧ ∀ history,
        wf_preferences 10 (fold_updateUserProfileWithInteraction start history)).
Proof.
  split; intros Hstart; (split; [intros; by auto using updateUserProfile_wf, updateUserProfileWithInteraction_wf|]).
  - intros history. revert start Hstart. unfold fold_updateUserProfile.
    induction history as [|step history IH]; intros start Hstart; simpl; [done|].
    apply IH, updateUserProfile_wf.
  - intros history. revert start Hstart. unfold fold_updateUserProfileWithInteraction.
    induction history as [|step history IH]; intros start Hstart; simpl; [done|].
    by apply IH, updateUserProfileWithInteraction_wf.
Qed.

(** C3 as stated fails: with a duplicate in the list, an item that is not
    found does not leave [updateUserProfile]'s answer identical to its
    input, nor does a [dislike] leave that of
    [updateUserProfileWithInteraction]. *)
Lemma updater_without_effect_counterexample :
  let currentPreferences := ["Drama"; "Drama"] in
  List.find (λ m, bool_decide (id m = "404")) [] = None
  ∧ updateUserProfile currentPreferences
      {| i_itemId := "404"; i_action := like |} [] = ["Drama"]
  ∧ updateUserProfile currentPreferences
      {| i_itemId := "404"; i_action := like |} [] ≠ currentPreferences
  ∧ updateUserProfileWithInteraction
      (λ _, Some (item "1" ["Comedy"])) currentPreferences
      {| i_itemId := "1"; i_action := dislike |} ≠ currentPreferences.
Proof. by vm_compute. Qed.

Lemma wf_Drama (cap : nat) : (1 ≤ cap)%nat → wf_preferences cap ["Drama"].
Proof.
  intros Hcap. split; [|simpl; lia].
  apply NoDup_singleton.
Defined.

Lemma updater_without_effect_witness :
  wf_preferences 15 ["Drama"]
  ∧ updateUserProfile ["Drama"]
      {| i_itemId := "404"; i_action := dislike |} [] = ["Drama"].
Proof.
  split; [apply wf_Drama; lia|].
  destruct (updater_without_effect ["Drama"]
              {| i_itemId := "404"; i_action := dislike |}) as (_ & _ & H3 & H4).
  rewrite (H3 []) by (right; by left).
  apply (H4 15%nat), wf_Drama. lia.
Defined.

Lemma preference_invariant_witness :
  wf_preferences 15 ["Drama"]
  ∧ wf_preferences 15
      (fold_updateUserProfile ["Drama"]
         [({| i_itemId := "1"; i_action := like |},
           [item "1" ["Drama"; "Comedy"]])])
  ∧ wf_preferences 10
      (fold_updateUserProfileWithInteraction ["Drama"]
         [({| i_itemId := "1"; i_action := superlike |},
           λ _, Some (item "1" ["Drama"; "Comedy"]))]).
Proof.
  destruct (preference_invariant ["Drama"]) as [H15 H10].
  split_and!.
  - apply wf_Drama. lia.
  - apply H15, wf_Drama. lia.
  - apply H10, wf_Drama. lia.
Defined.

(** The example of the specification: liking an item with the genres
    Drama and Comedy from the preferences Drama. *)
Example like_Drama_Comedy :
  updateUserProfile ["Drama"] {| i_itemId := "1"; i_action := like |}
    [item "1" ["Drama"; "Comedy"]] = ["Drama"; "Comedy"].
Proof. reflexivity. Qed.

End PreferencesFacts.

(** ** The daily quota *)

Module DailyChoicesFacts.

Import JS JSFacts DailyChoices.

Section Quota.
Context {json : JSON} {random : Shuffle}.
Variable clock : Clock.

#[local] Ltac run :=
  cbv [bind ret isClientSide getLocalStorage getItem browser_with
       removeItem setItem update_storage]; simpl.

Lemma World_cases (w : World) : no_storage w ∨ ∃ store, w = browser_with store.
Proof. destruct w as [[[store|]]|]; unfold no_storage; eauto. Qed.

(** *** What each function does in a browser with storage *)

Lemma resetDailyCountIfNeeded_browser store :
  resetDailyCountIfNeeded clock (browser_with store)
  = (tt, browser_with (reconcile clock store)).
Proof.
  unfold reconcile, resetDailyCountIfNeeded, shouldResetDailyCount. run.
  case_bool_decide; reflexivity.
Qed.

Lemma reconcile_date store :
  reconcile clock store !! LAST_RESET_DATE_KEY = Some (getCurrentDate clock).
Proof.
  unfold reconcile. case_bool_decide as Hd.
  - apply lookup_insert_eq.
  - destruct (decide (store !! LAST_RESET_DATE_KEY = Some (getCurrentDate clock)));
      [done|by destruct Hd].
Qed.

Lemma reconcile_current store :
  store !! LAST_RESET_DATE_KEY = Some (getCurrentDate clock) →
  reconcile clock store = store.
Proof.
  intros Hd. unfold reconcile. by rewrite bool_decide_eq_false_2 by (by intros ?).
Qed.

Lemma reconcile_stale store :
  store !! LAST_RESET_DATE_KEY ≠ Some (getCurrentDate clock) →
  reconcile clock store
  = <[LAST_RESET_DATE_KEY := getCurrentDate clock]> (delete CHOSEN_TODAY_KEY store).
Proof. intros Hd. unfold reconcile. by rewrite bool_decide_eq_true_2. Qed.

Lemma reconcile_idem store :
  reconcile clock (reconcile clock store) = reconcile clock store.
Proof. apply reconcile_current, reconcile_date. Qed.

Lemma reconcile_insert_chosen store text :
  reconcile clock (<[CHOSEN_TODAY_KEY := text]> (reconcile clock store))
  = <[CHOSEN_TODAY_KEY := text]> (reconcile clock store).
Proof.
  apply reconcile_current. rewrite lookup_insert_ne by done. apply reconcile_date.
Qed.

Lemma stored_records_insert store records :
  stored_records (<[CHOSEN_TODAY_KEY := JSON_stringify records]> store) = records.
Proof.
  unfold stored_records. rewrite lookup_insert_eq.
  rewrite bool_decide_eq_false_2 by apply JSON_stringify_truthy.
  by rewrite JSON_parse_stringify.
Qed.

Lemma stored_records_stale store :
  store !! LAST_RESET_DATE_KEY ≠ Some (getCurrentDate clock) →
  stored_records (reconcile clock store) = [].
Proof.
  intros Hd. rewrite reconcile_stale by done. unfold stored_records.
  by rewrite lookup_insert_ne, lookup_delete_eq by done.
Qed.

Lemma getChosenItemsToday_browser store :
  getChosenItemsToday clock (browser_with store)
  = (stored_records (reconcile clock store), browser_with (reconcile clock store)).
Proof.
  unfold getChosenItemsToday, bind at 1 2. simpl.
  rewrite resetDailyCountIfNeeded_browser. unfold stored_records. run.
  destruct (reconcile clock store !! CHOSEN_TODAY_KEY) as [text|]; simpl; [|done].
  case_bool_decide; [done|]. by destruct (JSON_parse text).
Qed.

Lemma getRemainingChoices_browser store :
  getRemainingChoices clock (browser_with store)
  = (Z.max 0 (DAILY_LIMIT - Z.of_nat (length (stored_records (reconcile clock store)))),
     browser_with (reconcile clock store)).
Proof.
  unfold getRemainingChoices, bind at 1 2. simpl.
  rewrite resetDailyCountIfNeeded_browser. unfold bind.
  by rewrite getChosenItemsToday_browser, reconcile_idem.
Qed.

Lemma some_id_elem_of (records : list ChosenItem) id :
  existsb (λ item, bool_decide (c_id item = id)) records
  = bool_decide (id ∈ chosen_ids records).
Proof.
  induction records as [|r records IH]; simpl; [done|].
  rewrite IH. unfold chosen_ids. simpl.
  destruct (decide (c_id r = id)) as [->|Hne].
  - rewrite bool_decide_eq_true_2 by done. simpl. symmetry.
    apply bool_decide_eq_true_2. by left.
  - rewrite (bool_decide_eq_false_2 (c_id r = id)) by done. simpl.
    apply bool_decide_ext. rewrite elem_of_cons.
    split; [by right|by intros [?|?]].
Qed.

Lemma addChosenItem_browser store id :
  addChosenItem clock id (browser_with store)
  = let store' := reconcile clock store in
    let records := stored_records store' in
    if Z.of_nat (length records) >=? DAILY_LIMIT then (false, browser_with store')
    else if bool_decide (id ∈ chosen_ids records) then (true, browser_with store')
    else (true, browser_with
                  (<[CHOSEN_TODAY_KEY :=
                       JSON_stringify (records ++ [new_record clock id])]> store')).
Proof.
  unfold addChosenItem, bind at 1 2. simpl.
  rewrite resetDailyCountIfNeeded_browser. unfold bind at 1. simpl.
  unfold bind at 1. rewrite getChosenItemsToday_browser, reconcile_idem.
  simpl. destruct (_ >=? _); [done|].
  rewrite some_id_elem_of. by case_bool_decide.
Qed.

Lemma filterOutChosenItems_browser store items :
  filterOutChosenItems clock items (browser_with store)
  = (filter (λ item, id item ∉ chosen_ids (stored_records (reconcile clock store))) items,
     browser_with (reconcile clock store)).
Proof.
  unfold filterOutChosenItems, bind at 1 2. simpl.
  rewrite getChosenItemsToday_browser. unfold ret. f_equal.
  apply list_filter_iff. intros item. unfold chosen_ids.
  by rewrite elem_of_list_to_set.
Qed.

(** *** What each function does without storage *)

Lemma getChosenItemsToday_no_storage w :
  no_storage w → getChosenItemsToday clock w = ([], w).
Proof. by intros [->| ->]. Qed.

Lemma getRemainingChoices_no_storage w :
  no_storage w → getRemainingChoices clock w = (DAILY_LIMIT, w).
Proof. by intros [->| ->]. Qed.

Lemma addChosenItem_no_storage w id :
  no_storage w → addChosenItem clock id w = (true, w).
Proof. by intros [->| ->]. Qed.

Lemma filter_not_chosen_nil (items : list MediaItem) :
  filter (λ item, id item ∉ chosen_ids []) items = items.
Proof.
  induction items as [|item items IH]; [done|].
  rewrite filter_cons_True by apply not_elem_of_nil. by rewrite IH.
Qed.

Lemma filterOutChosenItems_no_storage w items :
  no_storage w → filterOutChosenItems clock items w = (items, w).
Proof.
  intros [->| ->]; [done|].
  cbv [filterOutChosenItems bind ret isClientSide]. simpl. f_equal.
  rewrite <- (filter_not_chosen_nil items) at 2.
  apply list_filter_iff. intros item.
  split; intros _; [apply not_elem_of_nil|apply not_elem_of_empty].
Qed.

Lemma getRandomUnchosenSelection_client w items count :
  is_Some w →
  getRandomUnchosenSelection clock items count w
  = let unchosen := filterOutChosenItems clock items w in
    let remaining := getRemainingChoices clock unchosen.2 in
    let maxSelectable := Z.min count remaining.1 in
    (if maxSelectable <=? 0 then [] else slice0 (shuffle unchosen.1) maxSelectable,
     remaining.2).
Proof.
  intros Hw. unfold getRandomUnchosenSelection, bind at 1 2.
  cbv [isClientSide]. rewrite bool_decide_eq_true_2 by done.
  cbv [negb bind].
  destruct (filterOutChosenItems clock items w) as [unchosen w1]. simpl.
  destruct (getRemainingChoices clock w1) as [remaining w2]. simpl.
  by destruct (_ <=? _).
Qed.

Lemma getRandomUnchosenSelection_browser store items count :
  getRandomUnchosenSelection clock items count (browser_with store)
  = let store' := reconcile clock store in
    let records := stored_records store' in
    let unchosen := filter (λ item, id item ∉ chosen_ids records) items in
    let remaining := Z.max 0 (DAILY_LIMIT - Z.of_nat (length records)) in
    let maxSelectable := Z.min count remaining in
    (if maxSelectable <=? 0 then [] else slice0 (shuffle unchosen) maxSelectable,
     browser_with store').
Proof.
  rewrite getRandomUnchosenSelection_client by done.
  rewrite filterOutChosenItems_browser. cbn [fst snd].
  by rewrite getRemainingChoices_browser, reconcile_idem.
Qed.

Lemma getRandomUnchosenSelection_server items count :
  getRandomUnchosenSelection clock items count None
  = (slice0 (shuffle items) (Z.min count (Z.of_nat (length items))), None).
Proof. done. Qed.

Lemma getRandomUnchosenSelection_window_only items count :
  getRandomUnchosenSelection clock items count (Some {| localStorage := None |})
  = (if Z.min count DAILY_LIMIT <=? 0 then []
     else slice0 (shuffle items) (Z.min count DAILY_LIMIT),
     Some {| localStorage := None |}).
Proof.
  rewrite getRandomUnchosenSelection_client by done.
  rewrite filterOutChosenItems_no_storage by (by right). cbn [fst snd].
  by rewrite getRemainingChoices_no_storage by (by right).
Qed.

(** *** The store after [addChosenItem] *)

(** The three outcomes of [addChosenItem] in terms of the records read
    before and after. *)
Lemma addChosenItem_records store id :
  let w := browser_with store in
  let today := (getChosenItemsToday clock w).1 in
  let result := addChosenItem clock id w in
  ∃ store',
    result.2 = browser_with store'
    ∧ reconcile clock store' = store'
    ∧ (getChosenItemsToday clock result.2).1 = stored_records store'
    ∧ if Z.of_nat (length today) >=? DAILY_LIMIT
      then result.1 = false ∧ store' = reconcile clock store
      else if bool_decide (id ∈ chosen_ids today)
      then result.1 = true ∧ store' = reconcile clock store
      else result.1 = true
           ∧ store' = <[CHOSEN_TODAY_KEY :=
                          JSON_stringify (today ++ [new_record clock id])]>
                        (reconcile clock store)
           ∧ stored_records store' = today ++ [new_record clock id].
Proof.
  intros w today result. subst w today result.
  rewrite getChosenItemsToday_browser, addChosenItem_browser. cbn [fst snd].
  cbv zeta.
  destruct (_ >=? _); [|case_bool_decide]; eexists; cbn [fst snd];
    (split; [reflexivity|]);
    rewrite getChosenItemsToday_browser; cbn [fst];
    rewrite ?reconcile_insert_chosen, ?reconcile_idem;
    rewrite ?stored_records_insert; done.
Qed.

(** C2 (as amended). In a browser with storage, [addChosenItem] tests the
    limit before it looks for the id. With [today] the records of the
    current date: if there are 20 or more, it returns false and leaves
    the store as the date reconciliation left it, whether or not the id
    is among them; otherwise, if the id is among them, it returns true
    and leaves the store likewise; otherwise it returns true and the
    records become [today] followed by one record for the id with the
    current timestamp. Adding the same id a second time adds at most
    one record in all. *)
Theorem addChosenItem_cases store id :
  let w := browser_with store in
  let today := (getChosenItemsToday clock w).1 in
  let reconciled := (getChosenItemsToday clock w).2 in
  let result := addChosenItem clock id w in
  let after := (getChosenItemsToday clock result.2).1 in
  let again := addChosenItem clock id result.2 in
  (DAILY_LIMIT ≤ Z.of_nat (length today) →
     result = (false, reconciled) ∧ after = today)
  ∧ (Z.of_nat (length today) < DAILY_LIMIT → id ∈ chosen_ids today →
     result = (true, reconciled) ∧ after = today)
  ∧ (Z.of_nat (length today) < DAILY_LIMIT → id ∉ chosen_ids today →
     result.1 = true ∧ after = today ++ [new_record clock id])
  ∧ (length (getChosenItemsToday clock again.2).1 ≤ length today + 1)%nat.
Proof.
  intros w today reconciled result after again.
  destruct (addChosenItem_records store id) as (store' & Hw' & Hrec & Hafter & Hcases).
  fold w today result in Hw', Hafter, Hcases. fold after in Hafter.
  assert (reconciled = browser_with (reconcile clock store)) as Hreconciled.
  { unfold reconciled, w. by rewrite getChosenItemsToday_browser. }
  split_and!.
  - intros Hlimit.
    destruct (Z.geb_spec (Z.of_nat (length today)) DAILY_LIMIT) as [_|?]; [|lia].
    destruct Hcases as [Hr Hs]. split.
    + rewrite Hreconciled, <- Hs, <- Hw', <- Hr. by destruct result.
    + rewrite Hafter, Hs. unfold today, w.
      by rewrite getChosenItemsToday_browser.
  - intros Hlimit Hin.
    destruct (Z.geb_spec (Z.of_nat (length today)) DAILY_LIMIT) as [?|_]; [lia|].
    rewrite bool_decide_eq_true_2 in Hcases by done.
    destruct Hcases as [Hr Hs]. split.
    + rewrite Hreconciled, <- Hs, <- Hw', <- Hr. by destruct result.
    + rewrite Hafter, Hs. unfold today, w.
      by rewrite getChosenItemsToday_browser.
  - intros Hlimit Hin.
    destruct (Z.geb_spec (Z.of_nat (length today)) DAILY_LIMIT) as [?|_]; [lia|].
    rewrite bool_decide_eq_false_2 in Hcases by done.
    destruct Hcases as (Hr & _ & Hs). split; [done|]. by rewrite Hafter.
  - assert (stored_records store' = today
            ∨ stored_records store' = today ++ [new_record clock id]) as Hfirst.
    { assert (stored_records (reconcile clock store) = today) as Htoday.
      { unfold today, w. by rewrite getChosenItemsToday_browser. }
      destruct (_ >=? _); [|destruct (bool_decide _)].
      - left. by destruct Hcases as [_ ->].
      - left. by destruct Hcases as [_ ->].
      - right. by destruct Hcases as (_ & _ & ->). }
    unfold again. rewrite Hw'.
    destruct (addChosenItem_records store' id)
      as (store'' & Hw'' & _ & Hafter' & Hcases').
    rewrite Hafter'. rewrite getChosenItemsToday_browser in Hcases'.
    cbn [fst] in Hcases'. rewrite Hrec in Hcases'.
    destruct (_ >=? _) in Hcases'; [|case_bool_decide as Hin].
    + destruct Hcases' as [_ ->].
      destruct Hfirst as [-> | ->]; rewrite ?length_app; simpl; lia.
    + destruct Hcases' as [_ ->].
      destruct Hfirst as [-> | ->]; rewrite ?length_app; simpl; lia.
    + destruct Hcases' as (_ & _ & ->).
      destruct Hfirst as [Heq | Heq]; rewrite Heq in *.
      * rewrite length_app. simpl. lia.
      * destruct Hin. unfold chosen_ids. rewrite fmap_app.
        apply elem_of_app. right. by left.
Qed.

(** *** The selection *)

(** In every context the selection is the beginning of the shuffle of
    the candidates that were not chosen today, and the store is left as
    a read of today's records leaves it. *)
Lemma selection_prefix w items count :
  let today := (getChosenItemsToday clock w).1 in
  let filtered := filter (λ item, id item ∉ chosen_ids today) items in
  let result := getRandomUnchosenSelection clock items count w in
  result.1 `prefix_of` shuffle filtered
  ∧ result.2 = (getChosenItemsToday clock w).2.
Proof.
  intros today filtered result. subst today filtered result.
  destruct (World_cases w) as [Hw|[store ->]].
  - rewrite getChosenItemsToday_no_storage by done. cbn [fst snd].
    rewrite filter_not_chosen_nil.
    destruct Hw as [-> | ->].
    + rewrite getRandomUnchosenSelection_server. split; [apply slice0_prefix|done].
    + rewrite getRandomUnchosenSelection_window_only. cbn [fst snd].
      split; [|done]. destruct (_ <=? _); [apply prefix_nil|apply slice0_prefix].
  - rewrite getChosenItemsToday_browser, getRandomUnchosenSelection_browser.
    cbn [fst snd]. cbv zeta. split; [|done].
    destruct (_ <=? _); [apply prefix_nil|apply slice0_prefix].
Qed.

Lemma selection_submseteq w items count :
  let today := (getChosenItemsToday clock w).1 in
  (getRandomUnchosenSelection clock items count w).1
  ⊆+ filter (λ item, id item ∉ chosen_ids today) items.
Proof.
  cbv zeta. destruct (selection_prefix w items count) as [[rest Hrest] _].
  etrans; [|apply Permutation_submseteq, shuffle_Permutation].
  rewrite Hrest. by apply submseteq_inserts_r.
Qed.

(** C1 (as amended). The selection registers nothing: it never calls
    [addChosenItem]. In every context it leaves the store as a read of
    today's records leaves it, today's records are the same after the
    call as before, and no id of a returned item is among them. *)
Theorem selection_registers_nothing w items count :
  let result := getRandomUnchosenSelection clock items count w in
  result.2 = (getChosenItemsToday clock w).2
  ∧ (getChosenItemsToday clock result.2).1 = (getChosenItemsToday clock w).1
  ∧ ∀ item, item ∈ result.1 →
      id item ∉ chosen_ids (getChosenItemsToday clock result.2).1.
Proof.
  intros result.
  destruct (selection_prefix w items count) as [_ Hstore]. fold result in Hstore.
  assert ((getChosenItemsToday clock result.2).1 = (getChosenItemsToday clock w).1)
    as Hsame.
  { rewrite Hstore. destruct (World_cases w) as [Hw|[store ->]].
    - rewrite (getChosenItemsToday_no_storage w) by done. cbn [fst snd].
      by rewrite getChosenItemsToday_no_storage.
    - rewrite (getChosenItemsToday_browser store). cbn [fst snd].
      by rewrite getChosenItemsToday_browser, reconcile_idem. }
  split_and!; [done..|].
  intros item Hitem. rewrite Hsame.
  pose proof (selection_submseteq w items count) as Hsub. cbv zeta in Hsub.
  apply (elem_of_submseteq _ _ _ Hitem) in Hsub.
  by apply list_elem_of_filter in Hsub as [? _].
Qed.

(** The client-side selection in terms of today's records. *)
Lemma selection_client w items count :
  is_Some w →
  let today := (getChosenItemsToday clock w).1 in
  let remaining := (getRemainingChoices clock w).1 in
  let filtered := filter (λ item, id item ∉ chosen_ids today) items in
  (filterOutChosenItems clock items w).1 = filtered
  ∧ 0 ≤ remaining
  ∧ (getRandomUnchosenSelection clock items count w).1
    = if Z.min count remaining <=? 0 then []
      else slice0 (shuffle filtered) (Z.min count remaining).
Proof.
  intros Hw. cbv zeta.
  destruct (World_cases w) as [[-> | ->]|[store ->]].
  - by destruct Hw.
  - rewrite getChosenItemsToday_no_storage, getRemainingChoices_no_storage,
      filterOutChosenItems_no_storage, getRandomUnchosenSelection_window_only
      by (by right).
    cbn [fst]. by rewrite filter_not_chosen_nil.
  - rewrite getChosenItemsToday_browser, getRemainingChoices_browser,
      filterOutChosenItems_browser, getRandomUnchosenSelection_browser.
    cbn [fst]. split_and!; [done|lia|done].
Qed.

Lemma selection_client_length w items count :
  is_Some w →
  let today := (getChosenItemsToday clock w).1 in
  let remaining := (getRemainingChoices clock w).1 in
  let filtered := filter (λ item, id item ∉ chosen_ids today) items in
  length (getRandomUnchosenSelection clock items count w).1
  = Z.to_nat (Z.min count (Z.min remaining (Z.of_nat (length filtered)))).
Proof.
  intros Hw today remaining filtered.
  destruct (selection_client w items count Hw) as (_ & Hremaining & ->).
  fold today remaining filtered in Hremaining |- *.
  destruct (Z.leb_spec (Z.min count remaining) 0) as [Hle|Hlt].
  - simpl. lia.
  - rewrite slice0_length by lia.
    rewrite (Permutation_length (shuffle_Permutation filtered)). lia.
Qed.

(** C4. For every client-side call, the selection has
    [min(count, remaining(), filtered.length)] items, where [filtered] is
    the candidates without those whose id was chosen today; it is empty
    whenever that number is not positive, as it is when [remaining()] is
    0, however many candidates there are. Its items are items of
    [filtered]. *)
Theorem selection_length w items count :
  is_Some w →
  let today := (getChosenItemsToday clock w).1 in
  let remaining := (getRemainingChoices clock w).1 in
  let filtered := filter (λ item, id item ∉ chosen_ids today) items in
  let effective := Z.min count (Z.min remaining (Z.of_nat (length filtered))) in
  let result := (getRandomUnchosenSelection clock items count w).1 in
  (filterOutChosenItems clock items w).1 = filtered
  ∧ length result = Z.to_nat effective
  ∧ (effective ≤ 0 → result = [])
  ∧ (remaining = 0 → result = [])
  ∧ result ⊆+ filtered.
Proof.
  intros Hw today remaining filtered effective result.
  assert (length result = Z.to_nat effective) as Hlength
    by by apply selection_client_length.
  split_and!.
  - by destruct (selection_client w items count Hw) as (? & _).
  - done.
  - intros Heff. apply nil_length_inv. lia.
  - intros Hzero. apply nil_length_inv. unfold effective in Hlength. lia.
  - apply selection_submseteq.
Qed.

(** For a count that is not negative the selection has at most [count]
    items, all of them candidates, in every context. *)
Lemma selection_bound w items count :
  0 ≤ count →
  let result := (getRandomUnchosenSelection clock items count w).1 in
  (length result ≤ Z.to_nat count)%nat ∧ result ⊆+ items.
Proof.
  intros Hcount result. split.
  - destruct w as [window|].
    + unfold result. rewrite selection_client_length by done. lia.
    + unfold result. rewrite getRandomUnchosenSelection_server. cbn [fst].
      rewrite slice0_length by lia. lia.
  - etrans; [apply selection_submseteq|].
    apply sublist_submseteq, sublist_filter.
Qed.

(** *** Without a window *)

(** On the server the quota functions allow everything, and for a count
    that is not negative the selection is the first
    [min(count, items.length)] items of the shuffle of all candidates;
    nothing is filtered and nothing is registered. *)
Lemma server_permissive id items count :
  getChosenItemsToday clock None = ([], None)
  ∧ addChosenItem clock id None = (true, None)
  ∧ getRemainingChoices clock None = (DAILY_LIMIT, None)
  ∧ isDailyLimitReached clock None = (false, None)
  ∧ filterOutChosenItems clock items None = (items, None)
  ∧ (0 ≤ count →
     let n := Z.to_nat (Z.min count (Z.of_nat (length items))) in
     getRandomUnchosenSelection clock items count None
     = (take n (shuffle items), None)
     ∧ length (take n (shuffle items)) = n).
Proof.
  split_and!; try done.
  intros Hcount n. rewrite getRandomUnchosenSelection_server.
  rewrite slice0_nonneg by lia. split; [done|].
  rewrite length_take, (Permutation_length (shuffle_Permutation items)). lia.
Qed.


(** *** The day boundary *)

Lemma addChosenItem_date store id :
  ∃ store', (addChosenItem clock id (browser_with store)).2 = browser_with store'
            ∧ store' !! LAST_RESET_DATE_KEY = Some (getCurrentDate clock).
Proof.
  destruct (addChosenItem_records store id) as (store' & Hw' & Hrec & _).
  exists store'. split; [done|]. rewrite <- Hrec. apply reconcile_date.
Qed.

(** Each read runs the reset before anything else. *)
Lemma reads_reset_first w id :
  let reset := (resetDailyCountIfNeeded clock w).2 in
  getChosenItemsToday clock w = getChosenItemsToday clock reset
  ∧ getRemainingChoices clock w = getRemainingChoices clock reset
  ∧ addChosenItem clock id w = addChosenItem clock id reset.
Proof.
  destruct (World_cases w) as [[-> | ->]|[store ->]]; [done..|].
  cbv zeta. rewrite resetDailyCountIfNeeded_browser. cbn [snd].
  by rewrite !getChosenItemsToday_browser, !getRemainingChoices_browser,
    !addChosenItem_browser, !reconcile_idem.
Qed.

End Quota.

Section DayBoundary.
Context {json : JSON}.

(** C9. The three reads of the quota state run the reset first. When the
    stored date is not the current date, the reset removes the chosen
    list and overwrites the date, so that the read that follows sees no
    record: today's records are empty, 20 choices remain, and an id is
    added to an empty list. In particular the records written on one
    day are not seen on another day. *)
Theorem reads_reconcile_first (clock : Clock) (store : Storage) (id : string) :
  store !! LAST_RESET_DATE_KEY ≠ Some (getCurrentDate clock) →
  let w := browser_with store in
  let fresh :=
    <[LAST_RESET_DATE_KEY := getCurrentDate clock]> (delete CHOSEN_TODAY_KEY store) in
  let reset := (resetDailyCountIfNeeded clock w).2 in
  (getChosenItemsToday clock w = getChosenItemsToday clock reset
   ∧ getRemainingChoices clock w = getRemainingChoices clock reset
   ∧ addChosenItem clock id w = addChosenItem clock id reset)
  ∧ reset = browser_with fresh
  ∧ fresh !! CHOSEN_TODAY_KEY = None
  ∧ fresh !! LAST_RESET_DATE_KEY = Some (getCurrentDate clock)
  ∧ getChosenItemsToday clock w = ([], browser_with fresh)
  ∧ getRemainingChoices clock w = (DAILY_LIMIT, browser_with fresh)
  ∧ addChosenItem clock id w
    = (true, browser_with
               (<[CHOSEN_TODAY_KEY := JSON_stringify [new_record clock id]]> fresh))
  ∧ ∀ yesterday : Clock,
      getCurrentDate yesterday ≠ getCurrentDate clock →
      let later := (addChosenItem yesterday id w).2 in
      (getChosenItemsToday clock later).1 = []
      ∧ (getRemainingChoices clock later).1 = DAILY_LIMIT.
Proof.
  intros Hstale w fresh reset.
  assert (reconcile clock store = fresh) as Hfresh by by apply reconcile_stale.
  assert (stored_records fresh = []) as Hnone.
  { rewrite <- Hfresh. by apply stored_records_stale. }
  destruct (reads_reset_first clock w id) as (R1 & R2 & R3).
  split_and!.
  - exact R1.
  - exact R2.
  - exact R3.
  - unfold reset, w. by rewrite resetDailyCountIfNeeded_browser, Hfresh.
  - unfold fresh. by rewrite lookup_insert_ne, lookup_delete_eq.
  - apply lookup_insert_eq.
  - unfold w. by rewrite getChosenItemsToday_browser, Hfresh, Hnone.
  - unfold w. by rewrite getRemainingChoices_browser, Hfresh, Hnone.
  - unfold w. rewrite addChosenItem_browser. cbv zeta. rewrite Hfresh, Hnone.
    done.
  - intros yesterday Hdate later.
    destruct (addChosenItem_date yesterday store id) as (store' & Hw' & Hdate').
    unfold later, w. rewrite Hw'.
    rewrite getChosenItemsToday_browser, getRemainingChoices_browser. cbn [fst].
    rewrite stored_records_stale; [done|].
    rewrite Hdate'. congruence.
Qed.

End DayBoundary.

Section Corrupted.
Context {json : JSON} {random : Shuffle}.

Lemma reconcile_delete_chosen clock (store : Storage) :
  delete CHOSEN_TODAY_KEY (reconcile clock store)
  = reconcile clock (delete CHOSEN_TODAY_KEY store).
Proof.
  unfold reconcile. rewrite lookup_delete_ne by done.
  case_bool_decide; [|done].
  rewrite delete_insert_ne by done. by rewrite delete_delete_eq.
Qed.

Lemma stored_records_delete (store : Storage) :
  stored_records (delete CHOSEN_TODAY_KEY store) = [].
Proof. unfold stored_records. by rewrite lookup_delete_eq. Qed.

Lemma stored_records_corrupted clock (store : Storage) text :
  store !! CHOSEN_TODAY_KEY = Some text → JSON_parse text = None →
  stored_records (reconcile clock store) = [].
Proof.
  intros Htext Hparse. unfold reconcile. case_bool_decide.
  - unfold stored_records. by rewrite lookup_insert_ne, lookup_delete_eq.
  - unfold stored_records. rewrite Htext, Hparse. by case_bool_decide.
Qed.

(** C10. When the text stored for today's chosen items is not parseable,
    [getChosenItemsToday] returns the empty array and does not throw;
    every function of the module then returns what it returns for the
    same store without that text, and [addChosenItem] leaves the same
    store behind. *)
Theorem corrupted_storage_is_empty_day (clock : Clock) (store : Storage)
    (text id : string) (items : list MediaItem) (count : Z) :
  store !! CHOSEN_TODAY_KEY = Some text →
  JSON_parse text = None →
  let w := browser_with store in
  let empty := browser_with (delete CHOSEN_TODAY_KEY store) in
  (getChosenItemsToday clock w).1 = []
  ∧ (getChosenItemsToday clock empty).1 = []
  ∧ (getRemainingChoices clock w).1 = (getRemainingChoices clock empty).1
  ∧ (isDailyLimitReached clock w).1 = (isDailyLimitReached clock empty).1
  ∧ addChosenItem clock id w = addChosenItem clock id empty
  ∧ (filterOutChosenItems clock items w).1
    = (filterOutChosenItems clock items empty).1
  ∧ (getRandomUnchosenSelection clock items count w).1
    = (getRandomUnchosenSelection clock items count empty).1.
Proof.
  intros Htext Hparse w empty.
  pose proof (stored_records_corrupted clock store text Htext Hparse) as Hw.
  assert (stored_records (reconcile clock (delete CHOSEN_TODAY_KEY store)) = [])
    as Hempty.
  { rewrite <- reconcile_delete_chosen. apply stored_records_delete. }
  unfold w, empty.
  assert ((getRemainingChoices clock (browser_with store)).1
          = (getRemainingChoices clock
               (browser_with (delete CHOSEN_TODAY_KEY store))).1) as Hremaining.
  { by rewrite !getRemainingChoices_browser, Hw, Hempty. }
  split_and!.
  - by rewrite getChosenItemsToday_browser.
  - by rewrite getChosenItemsToday_browser.
  - done.
  - unfold isDailyLimitReached, bind, isClientSide, ret. simpl.
    by rewrite (surjective_pairing (getRemainingChoices clock (browser_with store))),
      (surjective_pairing (getRemainingChoices clock (browser_with (delete _ store)))),
      Hremaining.
  - rewrite !addChosenItem_browser. cbv zeta. rewrite Hw, Hempty.
    rewrite <- reconcile_delete_chosen. simpl. by rewrite insert_delete_eq.
  - by rewrite !filterOutChosenItems_browser, Hw, Hempty.
  - rewrite !getRandomUnchosenSelection_browser. cbv zeta.
    by rewrite Hw, Hempty.
Qed.

End Corrupted.

(** *** The properties on concrete stores *)

Section Examples.
Import Instances Codec.
#[local] Existing Instance prefix_codec.
#[local] Existing Instance identity_shuffle.

(** C1 as stated fails: in a browser with an empty store, the selection
    of one item among one candidate returns the candidate, and its id is
    not in today's records after the call. *)
Lemma selection_registers_counterexample :
  let result :=
    getRandomUnchosenSelection may_2 [item "1" []] 1 (browser_with ∅) in
  result.1 = [item "1" []]
  ∧ (getChosenItemsToday may_2 result.2).1 = []
  ∧ ¬ (∀ item, item ∈ result.1 →
         id item ∈ chosen_ids (getChosenItemsToday may_2 result.2).1).
Proof.
  split_and!; [by vm_compute..|].
  intros Hregistered. specialize (Hregistered (item "1" [])).
  assert (item "1" [] ∈ [item "1" []]) as Hin by by left.
  apply Hregistered in Hin. vm_compute in Hin. by apply elem_of_nil in Hin.
Qed.

Lemma selection_registers_nothing_witness :
  let w := browser_with (store_of "2024-05-02" (records 1)) in
  let result :=
    getRandomUnchosenSelection may_2 [item "1" []; item "2" []] 5 w in
  item "2" [] ∈ result.1
  ∧ id (item "2" []) ∉ chosen_ids (getChosenItemsToday may_2 result.2).1.
Proof.
  intros w result.
  assert (item "2" [] ∈ result.1) as Hin by (vm_compute; left).
  split; [exact Hin|].
  by apply (selection_registers_nothing may_2 w [item "1" []; item "2" []] 5).
Defined.

(** C2 as stated fails: with 20 records for today, one of them for the
    id 1, [addChosenItem] returns false for the id 1. *)
Lemma addChosenItem_counterexample :
  let w := browser_with (store_of "2024-05-02" (records 20)) in
  let today := (getChosenItemsToday may_2 w).1 in
  length today = 20%nat
  ∧ "1" ∈ chosen_ids today
  ∧ (addChosenItem may_2 "1" w).1 = false.
Proof.
  split_and!; [by vm_compute| |by vm_compute].
  apply (bool_decide_unpack _). by vm_compute.
Qed.

Lemma addChosenItem_cases_witness :
  let w := browser_with (store_of "2024-05-02" (records 2)) in
  let today := (getChosenItemsToday may_2 w).1 in
  let result := addChosenItem may_2 "7" w in
  (Z.of_nat (length today) < DAILY_LIMIT)
  ∧ ("7" ∉ chosen_ids today)
  ∧ result.1 = true
  ∧ (getChosenItemsToday may_2 result.2).1 = today ++ [new_record may_2 "7"].
Proof.
  intros w today result.
  assert (Z.of_nat (length today) < DAILY_LIMIT) as Hlimit by (by vm_compute).
  assert ("7" ∉ chosen_ids today) as Hfresh.
  { apply (bool_decide_unpack _). vm_compute. exact I. }
  split_and!; [exact Hlimit|exact Hfresh|..];
    destruct (addChosenItem_cases may_2 (store_of "2024-05-02" (records 2)) "7")
      as (_ & _ & Hadd & _);
    by destruct (Hadd Hlimit Hfresh).
Defined.

Lemma selection_length_witness :
  let w := browser_with (store_of "2024-05-02" (records 1)) in
  let items := [item "1" []; item "2" []; item "3" []; item "4" []] in
  is_Some w
  ∧ length (getRandomUnchosenSelection may_2 items 2 w).1 = 2%nat
  ∧ length (getRandomUnchosenSelection may_2 items 7 w).1 = 3%nat.
Proof.
  intros w items.
  assert (is_Some w) as Hw by (by eexists).
  split; [exact Hw|]. split.
  - destruct (selection_length may_2 w items 2 Hw) as (_ & -> & _).
    vm_compute. reflexivity.
  - destruct (selection_length may_2 w items 7 Hw) as (_ & -> & _).
    vm_compute. reflexivity.
Defined.

(** The same call under the shuffle that reverses: the last two of the
    three candidates, in reverse order. *)
Example server_selection_negative_count_reversed :
  (getRandomUnchosenSelection (random := reverse_shuffle) may_2
     [item "1" []; item "2" []; item "3" []] (-1) None).1
  = [item "3" []; item "2" []].
Proof. reflexivity. Qed.

Lemma reads_reconcile_first_witness :
  let store := store_of "2024-05-01" (records 3) in
  store !! LAST_RESET_DATE_KEY ≠ Some (getCurrentDate may_2)
  ∧ getChosenItemsToday may_1 (browser_with store)
    = (records 3, browser_with store)
  ∧ (getChosenItemsToday may_2 (browser_with store)).1 = []
  ∧ (getRemainingChoices may_2 (browser_with store)).1 = DAILY_LIMIT.
Proof.
  intros store.
  assert (store !! LAST_RESET_DATE_KEY ≠ Some (getCurrentDate may_2)) as Hstale.
  { apply (bool_decide_unpack _). vm_compute. exact I. }
  split; [exact Hstale|]. split; [by vm_compute|].
  destruct (reads_reconcile_first may_2 store "7" Hstale)
    as (_ & _ & _ & _ & -> & -> & _).
  by split.
Defined.

Lemma corrupted_storage_witness :
  let store : Storage :=
    <[CHOSEN_TODAY_KEY := "[{oops"]>
      (<[LAST_RESET_DATE_KEY := "2024-05-02"]> ∅) in
  store !! CHOSEN_TODAY_KEY = Some "[{oops"
  ∧ JSON_parse "[{oops" = None
  ∧ (getChosenItemsToday may_2 (browser_with store)).1 = [].
Proof.
  intros store.
  assert (store !! CHOSEN_TODAY_KEY = Some "[{oops") as Htext
    by (by vm_compute).
  assert (JSON_parse "[{oops" = None) as Hparse by (by vm_compute).
  split_and!; [exact Htext|exact Hparse|].
  by destruct (corrupted_storage_is_empty_day may_2 store "[{oops" "7" [] 0
                 Htext Hparse) as [-> _].
Defined.

End Examples.

End DailyChoicesFacts.

(** ** Reading the re-ranker's answer *)

Module GeminiAIFacts.

Import JS JSFacts GeminiAI Instances.

(** The scan on some answers: digits inside a word are no match. *)
Example match_numbers_lines :
  match_numbers "IDs: 3, 1" = ["3"; "1"].
Proof. reflexivity. Qed.

Example match_numbers_words :
  match_numbers "abc123 12_3 x9 9x 1.5 -7 (10)" = ["1"; "5"; "7"; "10"].
Proof. reflexivity. Qed.

Section Extraction.
Variable candidates : list MediaItem.
Implicit Types (tokens ids acc seen : list string).

Lemma find_by_id i :
  match List.find (λ item, bool_decide (id item = i)) candidates with
  | Some item => id item = i ∧ item ∈ candidates ∧ i ∈ id <$> candidates
  | None => i ∉ id <$> candidates
  end.
Proof.
  induction candidates as [|c cs IH]; simpl; [apply not_elem_of_nil|].
  case_bool_decide as Hc.
  - split_and!; [done|by left|]. rewrite <- Hc. by left.
  - destruct (List.find _ cs) as [item|].
    + destruct IH as (? & ? & ?). split_and!; [done|by right..].
    + intros [?|?]%elem_of_cons; [by destruct Hc|done].
Qed.

Lemma some_candidate i :
  existsb (λ item, bool_decide (id item = i)) candidates = true
  ↔ i ∈ id <$> candidates.
Proof.
  rewrite existsb_exists, list_elem_of_fmap. split.
  - intros (item & Hin%list_elem_of_In & Hid%bool_decide_eq_true). eauto.
  - intros (item & -> & Hin). exists item.
    split; [by apply list_elem_of_In|by apply bool_decide_eq_true].
Qed.

Lemma first_unique_matching_ext n seen seen' tokens :
  (∀ x, x ∈ seen ↔ x ∈ seen') →
  first_unique_matching n seen candidates tokens
  = first_unique_matching n seen' candidates tokens.
Proof.
  revert n seen seen'.
  induction tokens as [|token rest IH]; intros n seen seen' Hseen; [done|].
  destruct n as [|n]; [done|]. simpl.
  rewrite (bool_decide_ext _ (token ∈ id <$> candidates ∧ token ∉ seen'))
    by (by rewrite Hseen).
  case_bool_decide.
  - f_equal. apply IH. intros x. rewrite !elem_of_cons. by rewrite Hseen.
  - by apply IH.
Qed.

(** The array that [Set] and [slice] build is the list of the
    specification, whatever was inserted before. *)
Lemma spread_take_first_unique n acc tokens :
  take (length acc + n)
    (foldl push_if_absent acc
       (filter (λ i, existsb (λ item, bool_decide (id item = i)) candidates = true)
               tokens))
  = acc ++ first_unique_matching n acc candidates tokens.
Proof.
  revert n acc. induction tokens as [|token rest IH]; intros n acc.
  - simpl. rewrite take_ge by lia. by rewrite app_nil_r.
  - destruct n as [|n].
    + rewrite Nat.add_0_r. simpl. rewrite app_nil_r.
      destruct (foldl_push_prefix acc
        (filter (λ i, existsb (λ item, bool_decide (id item = i)) candidates = true)
                (token :: rest))) as [k ->].
      by rewrite take_app_length.
    + simpl first_unique_matching. rewrite filter_cons.
      destruct (decide (existsb _ candidates = true)) as [Hvalid|Hinvalid].
      * apply some_candidate in Hvalid. simpl foldl.
        unfold push_if_absent at 2, includes.
        case_bool_decide as Hseen.
        -- rewrite bool_decide_eq_false_2 by (intros [_ ?]; done). apply IH.
        -- rewrite bool_decide_eq_true_2 by done.
           specialize (IH n (acc ++ [token])).
           rewrite length_app in IH. simpl in IH.
           replace (length acc + S n)%nat with (length acc + 1 + n)%nat by lia.
           rewrite IH, <- app_assoc. simpl. do 2 f_equal.
           apply first_unique_matching_ext. intros x.
           rewrite elem_of_app, list_elem_of_singleton, elem_of_cons. tauto.
      * rewrite bool_decide_eq_false_2; [apply IH|].
        intros [Hvalid _]. by apply Hinvalid, some_candidate.
Qed.

Lemma parseGeminiResponse_first_unique response :
  parseGeminiResponse response candidates
  = first_unique_matching 10 [] candidates (match_numbers response).
Proof.
  unfold parseGeminiResponse, spread_Set. rewrite slice0_nonneg by lia.
  apply (spread_take_first_unique 10 []).
Qed.

Lemma foldl_push_sublist acc (l : list string) :
  ∃ k, foldl push_if_absent acc l = acc ++ k ∧ k `sublist_of` l.
Proof.
  revert acc. induction l as [|x l IH]; intros acc; simpl.
  - exists []. by rewrite app_nil_r.
  - unfold push_if_absent at 2. destruct (includes acc x).
    + destruct (IH acc) as (k & -> & Hk). exists k. split; [done|by constructor].
    + destruct (IH (acc ++ [x])) as (k & -> & Hk). exists (x :: k).
      split; [by rewrite <- app_assoc|by constructor].
Qed.

Lemma spread_Set_sublist (l : list string) : spread_Set l `sublist_of` l.
Proof. destruct (foldl_push_sublist [] l) as (k & Hk & Hsub). unfold spread_Set. by rewrite Hk. Qed.

Lemma ids_of_found ids :
  id <$> omap (λ item, item)
           ((λ i, List.find (λ item, bool_decide (id item = i)) candidates) <$> ids)
  = filter (λ i, i ∈ id <$> candidates) ids.
Proof.
  induction ids as [|i ids IH]; [done|]. simpl in *.
  pose proof (find_by_id i) as Hfind.
  destruct (List.find _ candidates) as [item|]; simpl.
  - destruct Hfind as (Hid & _ & Hin).
    rewrite filter_cons_True by done. rewrite Hid. f_equal. exact IH.
  - rewrite filter_cons_False by done. apply IH.
Qed.

Lemma reorder_ids ids :
  id <$> reorder ids candidates
  = slice0 (filter (λ i, i ∈ id <$> candidates) ids) 10.
Proof.
  unfold reorder. rewrite !slice0_nonneg by lia.
  by rewrite fmap_take, ids_of_found.
Qed.

Lemma reorder_elem_of ids item :
  item ∈ reorder ids candidates → item ∈ candidates.
Proof.
  unfold reorder. intros Hin.
  eapply elem_of_submseteq in Hin; [|apply slice0_submseteq].
  apply list_elem_of_omap in Hin as (found & Hfound & ->).
  apply list_elem_of_fmap in Hfound as (i & Hi & _).
  pose proof (find_by_id i) as Hfind. rewrite <- Hi in Hfind. tauto.
Qed.

(** C7. From the text of the re-ranker and the candidates, the
    extraction yields the first 10 unique numeric tokens of the text that
    are the id of a candidate, in order of appearance, the other tokens
    being ignored. The reordered list holds, for those ids and in that
    order, the candidates that carry them; for any list of ids, those of
    no candidate are dropped. When no id is extracted the reordered list
    is empty and the caller keeps the list it had. With the ids 3 and 1
    and candidates of ids 1, 2 and 3, the reordered list is the third
    candidate followed by the first. *)
Theorem rerank_extraction (response : string) :
  let tokens := match_numbers response in
  let ids := parseGeminiResponse response candidates in
  let reordered := reorder ids candidates in
  ids = first_unique_matching 10 [] candidates tokens
  ∧ NoDup ids
  ∧ (length ids ≤ 10)%nat
  ∧ ids `sublist_of` tokens
  ∧ (∀ i, i ∈ ids → i ∈ id <$> candidates)
  ∧ id <$> reordered = ids
  ∧ (∀ item, item ∈ reordered → item ∈ candidates)
  ∧ (∀ ids', id <$> reorder ids' candidates
             = slice0 (filter (λ i, i ∈ id <$> candidates) ids') 10)
  ∧ (∀ service userPreferences userHistory,
       DailyChoices.falsy (GEMINI_API_KEY service) = false →
       generateContent service userPreferences (last20 userHistory) candidates
       = Return response →
       getGeminiPersonalizedRecommendations
         service userPreferences userHistory candidates = reordered)
  ∧ (ids = [] →
       reordered = []
       ∧ Recommendations.finalRecommendations reordered candidates = candidates)
  ∧ (∀ a b c,
       candidates = [a; b; c] →
       id a = "1" → id b = "2" → id c = "3" →
       reorder ["3"; "1"] candidates = [c; a]).
Proof.
  intros tokens ids reordered.
  assert (NoDup ids) as Hnodup by apply slice0_NoDup, spread_Set_NoDup.
  assert (length ids ≤ 10)%nat as Hlength.
  { unfold ids, parseGeminiResponse. rewrite slice0_length by lia. lia. }
  assert (∀ i, i ∈ ids → i ∈ id <$> candidates) as Hvalid.
  { intros i Hi. unfold ids, parseGeminiResponse in Hi.
    eapply elem_of_submseteq in Hi; [|apply slice0_submseteq].
    apply spread_Set_elem_of, list_elem_of_filter in Hi as [Hi _].
    by apply some_candidate. }
  split_and!; try done.
  - apply parseGeminiResponse_first_unique.
  - unfold ids, parseGeminiResponse, slice0.
    etrans; [apply sublist_take|]. etrans; [apply spread_Set_sublist|].
    apply sublist_filter.
  - unfold reordered. rewrite reorder_ids.
    rewrite slice0_nonneg by lia. rewrite take_ge.
    + clear -Hvalid. induction ids as [|i l IH]; [done|].
      rewrite filter_cons_True by (apply Hvalid; by left).
      f_equal. apply IH. intros x Hx. apply Hvalid. by right.
    + etrans; [apply length_filter|done].
  - apply reorder_elem_of.
  - apply reorder_ids.
  - intros service prefs history Hkey Hresponse.
    unfold getGeminiPersonalizedRecommendations. by rewrite Hkey, Hresponse.
  - intros Hnone. unfold reordered. by rewrite Hnone.
  - intros a b c Hcandidates Ha Hb Hc. rewrite Hcandidates.
    unfold reorder. simpl. rewrite Ha, Hb, Hc. reflexivity.
Qed.

End Extraction.

(** The example of the specification, from the text of an answer to the
    reordered list. *)
Lemma rerank_extraction_witness :
  let candidates := [item "1" []; item "2" []; item "3" []] in
  parseGeminiResponse "IDs: 3, 1" candidates = ["3"; "1"]
  ∧ reorder ["3"; "1"] candidates = [item "3" []; item "1" []].
Proof.
  intros candidates.
  destruct (rerank_extraction candidates "IDs: 3, 1")
    as (Hids & _ & _ & _ & _ & _ & _ & _ & _ & _ & Hexample).
  split.
  - rewrite Hids. vm_compute. reflexivity.
  - apply (Hexample (item "1" []) (item "2" []) (item "3" []));
      reflexivity.
Defined.

End GeminiAIFacts.

(** ** The orchestrator *)

Module RecommendationsFacts.

Import DailyChoices DailyChoicesFacts Recommendations.

Section Orchestrator.
Context {json : JSON} {random : Shuffle}.
Variable clock : Clock.
Variable fetchTmdbRecommendations : list string → T (list MediaItem).
Variable fetchPopularContent : T (list MediaItem).
Variable gemini : GeminiAI.Service.
Variable mockMediaItems : list MediaItem.

#[local] Abbreviation orchestrator :=
  (getPersonalizedRecommendations clock fetchTmdbRecommendations
     fetchPopularContent gemini mockMediaItems).

(** The selection, taken as a step of the orchestrator, returns. *)
Lemma lift_selection items count w :
  lift (getRandomUnchosenSelection clock items count) w
  = (Return (getRandomUnchosenSelection clock items count w).1,
     (getRandomUnchosenSelection clock items count w).2).
Proof.
  unfold lift. by destruct (getRandomUnchosenSelection clock items count w).
Qed.

(** The orchestrator ends in a selection of 10, whatever the catalog
    queries did. *)
Lemma orchestrator_ends_in_selection userPreferences userHistory w :
  ∃ items w',
    orchestrator userPreferences userHistory w
    = lift (getRandomUnchosenSelection clock items 10) w'.
Proof.
  assert (∀ items w', ∃ items' w'',
    (Return (getRandomUnchosenSelection clock items 10 w').1,
     (getRandomUnchosenSelection clock items 10 w').2)
    = lift (getRandomUnchosenSelection clock items' 10) w'') as Hselection.
  { intros items w'. exists items, w'. by rewrite lift_selection. }
  unfold getPersonalizedRecommendations, try_catch, bind, ret.
  destruct (fetchTmdbRecommendations userPreferences w) as [[tmdb|e] w1].
  - destruct (Z.of_nat (length tmdb) =? 0) eqn:Hempty.
    + destruct (fetchPopularContent w1) as [[popular|e] w2].
      * destruct (Z.of_nat (length popular) =? 0);
          rewrite lift_selection; apply Hselection.
      * rewrite lift_selection; apply Hselection.
    + rewrite Hempty, lift_selection. apply Hselection.
  - rewrite lift_selection. apply Hselection.
Qed.


End Orchestrator.


End RecommendationsFacts.

(** ** The quota store under sequences of calls *)

Module QuotaFacts.

Import JS JSFacts DailyChoices DailyChoicesFacts QuotaCalls.

Section Quota.
Context {json : JSON} {random : Shuffle}.
Implicit Types (store : Storage) (w : World) (clock : Clock).

Lemma isDailyLimitReached_browser clock store :
  isDailyLimitReached clock (browser_with store)
  = (Z.max 0 (DAILY_LIMIT - Z.of_nat (length (stored_records (reconcile clock store))))
       <=? 0,
     browser_with (reconcile clock store)).
Proof.
  unfold isDailyLimitReached, bind at 1. cbv [isClientSide].
  rewrite bool_decide_eq_true_2 by done. cbv [negb bind].
  by rewrite getRemainingChoices_browser.
Qed.

Lemma isDailyLimitReached_no_storage clock w :
  no_storage w → isDailyLimitReached clock w = (false, w).
Proof. by intros [-> | ->]. Qed.

(** What a call leaves of a store: the reconciled store, or, for an
    [addChosenItem] that appends, the reconciled store with one more
    record. *)
Lemma after_call_browser clock call store :
  let store' := reconcile clock store in
  let records := stored_records store' in
  after_call clock call (browser_with store) = browser_with store'
  ∨ ∃ id,
      call = call_addChosenItem id
      ∧ (Z.of_nat (length records) < DAILY_LIMIT)
      ∧ (id ∉ chosen_ids records)
      ∧ after_call clock call (browser_with store)
        = browser_with
            (<[CHOSEN_TODAY_KEY := JSON_stringify (records ++ [new_record clock id])]>
               store').
Proof.
  cbv zeta. destruct call as [|id| | |items|items count]; simpl.
  - left. by rewrite getChosenItemsToday_browser.
  - rewrite addChosenItem_browser. cbv zeta.
    destruct (Z.geb_spec (Z.of_nat (length (stored_records (reconcile clock store))))
                DAILY_LIMIT) as [?|Hlt]; [by left|].
    case_bool_decide as Hin; [by left|].
    right. by exists id.
  - left. by rewrite getRemainingChoices_browser.
  - left. by rewrite isDailyLimitReached_browser.
  - left. by rewrite filterOutChosenItems_browser.
  - left. by rewrite getRandomUnchosenSelection_browser.
Qed.

Lemma after_call_no_storage clock call w :
  no_storage w → after_call clock call w = w.
Proof.
  intros Hw. destruct call as [|id| | |items|items count]; simpl.
  - by rewrite getChosenItemsToday_no_storage.
  - by rewrite addChosenItem_no_storage.
  - by rewrite getRemainingChoices_no_storage.
  - by rewrite isDailyLimitReached_no_storage.
  - by rewrite filterOutChosenItems_no_storage.
  - destruct (selection_prefix clock w items count) as [_ ->].
    by rewrite getChosenItemsToday_no_storage.
Qed.

Lemma within_quota_reconcile clock store :
  within_quota store → within_quota (reconcile clock store).
Proof.
  intros Hstore. unfold reconcile. case_bool_decide; [|done].
  unfold within_quota, stored_records.
  rewrite lookup_insert_ne, lookup_delete_eq by done. simpl.
  split; [unfold DAILY_LIMIT; lia|apply NoDup_nil_2].
Qed.

Lemma within_quota_after_call clock call store :
  within_quota store →
  ∃ store', after_call clock call (browser_with store) = browser_with store'
            ∧ within_quota store'.
Proof.
  intros Hstore%(within_quota_reconcile clock).
  destruct (after_call_browser clock call store)
    as [->|(id & _ & Hlimit & Hfresh & ->)]; eexists; (split; [done|]); [done|].
  unfold within_quota. rewrite stored_records_insert.
  destruct Hstore as [_ Hnodup]. split.
  - rewrite length_app. simpl. lia.
  - unfold chosen_ids in *. rewrite fmap_app. simpl.
    apply NoDup_app. split_and!; [done| |apply NoDup_singleton].
    intros x Hx ->%list_elem_of_singleton. done.
Qed.

(** X1. The records the store holds never exceed the daily limit and
    never hold an id twice: a store within the quota stays within the
    quota under every sequence of calls to the exported functions, made
    at any times. *)
Theorem quota_never_exceeded (calls : list (Clock * Call)) store :
  within_quota store →
  ∃ store', after_calls calls (browser_with store) = browser_with store'
            ∧ within_quota store'.
Proof.
  revert store. unfold after_calls.
  induction calls as [|[clock call] calls IH]; intros store Hstore; simpl.
  - by exists store.
  - destruct (within_quota_after_call clock call store Hstore)
      as (store' & -> & Hstore').
    by apply IH.
Qed.

Lemma after_call_other_key clock call store key :
  key ≠ CHOSEN_TODAY_KEY → key ≠ LAST_RESET_DATE_KEY →
  ∃ store', after_call clock call (browser_with store) = browser_with store'
            ∧ store' !! key = store !! key.
Proof.
  intros Hchosen Hdate.
  assert (reconcile clock store !! key = store !! key) as Hreconcile.
  { unfold reconcile. case_bool_decide; [|done].
    by rewrite lookup_insert_ne, lookup_delete_ne. }
  destruct (after_call_browser clock call store)
    as [->|(id & _ & _ & _ & ->)]; eexists; (split; [done|]); [done|].
  by rewrite lookup_insert_ne.
Qed.

(** X2. The quota store writes two keys and no other: whatever the calls
    and their times, every other key of [localStorage] keeps its value,
    and a context without storage is left as it is. *)
Theorem quota_touches_two_keys (calls : list (Clock * Call)) store key w :
  key ≠ CHOSEN_TODAY_KEY → key ≠ LAST_RESET_DATE_KEY →
  (∃ store', after_calls calls (browser_with store) = browser_with store'
             ∧ store' !! key = store !! key)
  ∧ (no_storage w → after_calls calls w = w).
Proof.
  intros Hchosen Hdate. split.
  - revert store. unfold after_calls.
    induction calls as [|[clock call] calls IH]; intros store; simpl.
    + by exists store.
    + destruct (after_call_other_key clock call store key Hchosen Hdate)
        as (store' & -> & <-).
      apply IH.
  - intros Hw. unfold after_calls.
    induction calls as [|[clock call] calls IH]; simpl; [done|].
    by rewrite after_call_no_storage.
Qed.

(** Today's records and the remaining choices, read off the store. *)
Lemma today_browser clock store :
  (getChosenItemsToday clock (browser_with store)).1
  = stored_records (reconcile clock store).
Proof. by rewrite getChosenItemsToday_browser. Qed.

Lemma remaining_browser clock store :
  (getRemainingChoices clock (browser_with store)).1
  = Z.max 0 (DAILY_LIMIT - Z.of_nat (length (stored_records (reconcile clock store)))).
Proof. by rewrite getRemainingChoices_browser. Qed.

(** No selection returns an item whose id is among today's records. *)
Lemma selection_not_chosen clock w items count item :
  item ∈ (getRandomUnchosenSelection clock items count w).1 →
  id item ∉ chosen_ids (getChosenItemsToday clock w).1.
Proof.
  intros Hitem.
  pose proof (selection_submseteq clock w items count) as Hsub. cbv zeta in Hsub.
  apply (elem_of_submseteq _ _ _ Hitem) in Hsub.
  by apply list_elem_of_filter in Hsub as [? _].
Qed.

(** X3. In every context, [addChosenItem] refuses an id exactly when
    [isDailyLimitReached] answers true, that is when no choice remains;
    and then every selection is empty, whatever the candidates and the
    count. *)
Theorem refused_iff_limit_reached clock w id :
  (isDailyLimitReached clock w).1 = negb (addChosenItem clock id w).1
  ∧ ((isDailyLimitReached clock w).1 = true
     ↔ (getRemainingChoices clock w).1 = 0)
  ∧ ((isDailyLimitReached clock w).1 = true →
     ∀ items count, (getRandomUnchosenSelection clock items count w).1 = []).
Proof.
  destruct (World_cases w) as [Hw|[store ->]].
  - rewrite isDailyLimitReached_no_storage, addChosenItem_no_storage,
      getRemainingChoices_no_storage by done.
    cbn [fst]. split_and!; [done|split; done|done].
  - rewrite isDailyLimitReached_browser, addChosenItem_browser,
      getRemainingChoices_browser. cbv zeta. cbn [fst].
    set (n := Z.of_nat (length (stored_records (reconcile clock store)))).
    split_and!.
    + destruct (Z.geb_spec n DAILY_LIMIT), (Z.leb_spec (Z.max 0 (DAILY_LIMIT - n)) 0);
        [done|lia|lia|by case_bool_decide].
    + rewrite Z.leb_le. lia.
    + intros Hreached%Z.leb_le items count.
      rewrite getRandomUnchosenSelection_browser. cbv zeta. cbn [fst]. fold n.
      destruct (Z.leb_spec (Z.min count (Z.max 0 (DAILY_LIMIT - n))) 0); [done|lia].
Qed.

(** X4. An id that [addChosenItem] accepts in a browser with storage is
    among today's records afterwards; from then on the filter drops every
    item that carries it and no selection returns one. *)
Theorem accepted_id_is_chosen clock store (added : string) items count :
  let result := addChosenItem clock added (browser_with store) in
  result.1 = true →
  added ∈ chosen_ids (getChosenItemsToday clock result.2).1
  ∧ (∀ item, item ∈ (filterOutChosenItems clock items result.2).1 → id item ≠ added)
  ∧ (∀ item, item ∈ (getRandomUnchosenSelection clock items count result.2).1 →
       id item ≠ added).
Proof.
  intros result Haccepted.
  assert (added ∈ chosen_ids (getChosenItemsToday clock result.2).1) as Hchosen.
  { unfold result in *. rewrite addChosenItem_browser in *. cbv zeta in *.
    destruct (_ >=? _); [done|]. case_bool_decide as Hin; cbn [snd].
    - by rewrite today_browser, reconcile_idem.
    - rewrite today_browser, reconcile_insert_chosen, stored_records_insert.
      unfold chosen_ids. rewrite fmap_app. apply elem_of_app. right. by left. }
  split_and!; [done| |].
  - intros item Hitem Hid.
    destruct result.2 as [[[store'|]]|] eqn:Hw'.
    + change (Some {| localStorage := Some store' |}) with (browser_with store') in *.
      rewrite filterOutChosenItems_browser in Hitem.
      rewrite today_browser in Hchosen. cbn [fst] in Hitem.
      apply list_elem_of_filter in Hitem as [Hfresh _]. by rewrite Hid in Hfresh.
    + by apply elem_of_nil in Hchosen.
    + by apply elem_of_nil in Hchosen.
  - intros item Hitem Hid.
    apply selection_not_chosen in Hitem. by rewrite Hid in Hitem.
Qed.

(** X5. In a browser with storage, the number of remaining choices goes
    down by one when [addChosenItem] is given an id that is not among
    today's records while a choice remains, and stays as it is in every
    other case. *)
Theorem remaining_after_add clock store id :
  let w := browser_with store in
  let before := (getRemainingChoices clock w).1 in
  let after := (getRemainingChoices clock (addChosenItem clock id w).2).1 in
  after
  = if (0 <? before) && bool_decide (id ∉ chosen_ids (getChosenItemsToday clock w).1)
    then before - 1 else before.
Proof.
  cbv zeta. rewrite today_browser, remaining_browser, addChosenItem_browser.
  cbv zeta.
  set (records := stored_records (reconcile clock store)).
  destruct (Z.geb_spec (Z.of_nat (length records)) DAILY_LIMIT) as [Hge|Hlt];
    cbn [snd].
  - rewrite remaining_browser, reconcile_idem. fold records.
    destruct (Z.ltb_spec 0 (Z.max 0 (DAILY_LIMIT - Z.of_nat (length records))));
      [lia|done].
  - destruct (Z.ltb_spec 0 (Z.max 0 (DAILY_LIMIT - Z.of_nat (length records))));
      [|lia].
    destruct (decide (id ∈ chosen_ids records)) as [Hin|Hfresh].
    + rewrite bool_decide_eq_true_2, bool_decide_eq_false_2 by (done || by intros ?).
      cbn [snd andb]. rewrite remaining_browser, reconcile_idem. done.
    + rewrite bool_decide_eq_false_2, bool_decide_eq_true_2 by done.
      cbn [snd andb].
      rewrite remaining_browser, reconcile_insert_chosen, stored_records_insert.
      rewrite length_app. simpl. lia.
Qed.

(** X6. In every context the filter keeps the order of the candidates,
    keeps exactly those whose id is not among today's records, and
    changes nothing when it is applied to its own result. *)
Theorem filterOutChosenItems_exact clock w items :
  let result := filterOutChosenItems clock items w in
  result.1 `sublist_of` items
  ∧ (∀ item, item ∈ result.1
             ↔ item ∈ items ∧ id item ∉ chosen_ids (getChosenItemsToday clock w).1)
  ∧ filterOutChosenItems clock result.1 result.2 = result.
Proof.
  assert (filterOutChosenItems clock items w
          = (filter (λ item, id item ∉ chosen_ids (getChosenItemsToday clock w).1) items,
             (getChosenItemsToday clock w).2)) as Hfilter.
  { destruct (World_cases w) as [Hw|[store ->]].
    - rewrite filterOutChosenItems_no_storage, getChosenItemsToday_no_storage by done.
      cbn [fst snd]. by rewrite filter_not_chosen_nil.
    - by rewrite filterOutChosenItems_browser, getChosenItemsToday_browser. }
  cbv zeta. rewrite Hfilter. cbn [fst snd]. split_and!.
  - apply sublist_filter.
  - intros item. rewrite list_elem_of_filter. tauto.
  - destruct (World_cases w) as [Hw|[store ->]].
    + rewrite getChosenItemsToday_no_storage by done. cbn [fst snd].
      by rewrite filter_not_chosen_nil, filterOutChosenItems_no_storage.
    + rewrite getChosenItemsToday_browser. cbn [fst snd].
      rewrite filterOutChosenItems_browser, reconcile_idem. f_equal.
      rewrite list_filter_filter. apply list_filter_iff. tauto.
Qed.

(** X7. When the stored date is the current date, reading changes
    nothing: today's records are the stored records, and neither the
    reads, nor the filter, nor a selection modify the store. *)
Theorem same_day_reads_keep_store clock store items count :
  store !! LAST_RESET_DATE_KEY = Some (getCurrentDate clock) →
  let w := browser_with store in
  getChosenItemsToday clock w = (stored_records store, w)
  ∧ (getRemainingChoices clock w).2 = w
  ∧ (isDailyLimitReached clock w).2 = w
  ∧ (filterOutChosenItems clock items w).2 = w
  ∧ (getRandomUnchosenSelection clock items count w).2 = w.
Proof.
  intros Hdate%(reconcile_current clock). cbv zeta.
  by rewrite getChosenItemsToday_browser, getRemainingChoices_browser,
    isDailyLimitReached_browser, filterOutChosenItems_browser,
    getRandomUnchosenSelection_browser, Hdate.
Qed.

Lemma NoDup_of_submseteq {A} (l k : list A) : l ⊆+ k → NoDup k → NoDup l.
Proof.
  intros [rest Hrest]%submseteq_Permutation Hk. rewrite Hrest in Hk.
  by apply NoDup_app in Hk as [? _].
Qed.

(** X8. A selection returns no candidate more often than it was given:
    it is contained, with multiplicities, in the candidates, so distinct
    candidates give distinct items and candidates with distinct ids give
    items with distinct ids. No candidates give no items. *)
Theorem selection_distinct clock w items count :
  let result := (getRandomUnchosenSelection clock items count w).1 in
  result ⊆+ items
  ∧ (NoDup items → NoDup result)
  ∧ (NoDup (id <$> items) → NoDup (id <$> result))
  ∧ (items = [] → result = []).
Proof.
  intros result.
  assert (result ⊆+ items) as Hsub.
  { etrans; [apply selection_submseteq|].
    apply sublist_submseteq, sublist_filter. }
  split_and!; [done| | |].
  - intros Hnodup. by eapply NoDup_of_submseteq.
  - intros Hnodup. eapply NoDup_of_submseteq; [|done]. by apply fmap_submseteq.
  - intros ->. by apply submseteq_nil_r.
Qed.

(** X9. In a window whose [localStorage] is null nothing is stored and
    nothing blocks: there are no records, every id is accepted, 20
    choices remain and the limit is never reached. The selection is
    capped by those 20 all the same: it has [min(count, 20, length)]
    items, none for a count that is not positive. *)
Theorem window_without_storage clock id items count :
  let w : World := Some {| localStorage := None |} in
  getChosenItemsToday clock w = ([], w)
  ∧ addChosenItem clock id w = (true, w)
  ∧ getRemainingChoices clock w = (DAILY_LIMIT, w)
  ∧ isDailyLimitReached clock w = (false, w)
  ∧ filterOutChosenItems clock items w = (items, w)
  ∧ (getRandomUnchosenSelection clock items count w).2 = w
  ∧ length (getRandomUnchosenSelection clock items count w).1
    = Z.to_nat (Z.min count (Z.min DAILY_LIMIT (Z.of_nat (length items)))).
Proof.
  cbv zeta.
  assert (no_storage (Some {| localStorage := None |})) as Hw by by right.
  rewrite getChosenItemsToday_no_storage, addChosenItem_no_storage,
    getRemainingChoices_no_storage, isDailyLimitReached_no_storage,
    filterOutChosenItems_no_storage, getRandomUnchosenSelection_window_only
    by done.
  cbn [fst snd]. split_and!; try done.
  destruct (Z.leb_spec (Z.min count DAILY_LIMIT) 0).
  - simpl. unfold DAILY_LIMIT in *. lia.
  - rewrite slice0_length by lia.
    rewrite (Permutation_length (shuffle_Permutation items)). lia.
Qed.

(** Registering items one after the other on a reconciled store with
    room for all of them: every id ends up among the records, and the
    records that were there stay. *)
Lemma register_all_records clock (shown : list MediaItem) store :
  reconcile clock store = store →
  (shown = []
   ∨ Z.of_nat (length (stored_records store)) + Z.of_nat (length shown) ≤ DAILY_LIMIT) →
  ∃ store',
    register_all clock shown (browser_with store) = browser_with store'
    ∧ reconcile clock store' = store'
    ∧ (∀ i, i ∈ chosen_ids (stored_records store) →
            i ∈ chosen_ids (stored_records store'))
    ∧ (∀ item, item ∈ shown → id item ∈ chosen_ids (stored_records store')).
Proof.
  revert store. unfold register_all.
  induction shown as [|item shown IH]; intros store Hreconciled Hroom.
  - exists store. split_and!; [done..|]. by intros item ?%elem_of_nil.
  - destruct Hroom as [?|Hroom]; [done|]. simpl in Hroom |- *.
    rewrite addChosenItem_browser. cbv zeta. rewrite Hreconciled.
    destruct (Z.geb_spec (Z.of_nat (length (stored_records store))) DAILY_LIMIT)
      as [?|_]; [lia|].
    case_bool_decide as Hin; cbn [snd].
    + destruct (IH store Hreconciled) as (store' & Hw' & Hrec' & Hkept & Hshown);
        [right; lia|].
      exists store'. split_and!; [done..|].
      intros x [->|Hx]%elem_of_cons; [by apply Hkept|by apply Hshown].
    + set (store1 := <[CHOSEN_TODAY_KEY :=
                         JSON_stringify (stored_records store ++ [new_record clock (id item)])]>
                       store).
      assert (reconcile clock store1 = store1) as Hreconciled1.
      { unfold store1. rewrite <- Hreconciled at 2 3.
        by rewrite reconcile_insert_chosen, Hreconciled. }
      assert (stored_records store1
              = stored_records store ++ [new_record clock (id item)]) as Hrecords1
        by apply stored_records_insert.
      destruct (IH store1 Hreconciled1) as (store' & Hw' & Hrec' & Hkept & Hshown).
      { right. rewrite Hrecords1, length_app. simpl. lia. }
      assert (∀ i, i ∈ chosen_ids (stored_records store ++ [new_record clock (id item)]) →
                   i ∈ chosen_ids (stored_records store')) as Hkept1.
      { intros i Hi. apply Hkept. by rewrite Hrecords1. }
      exists store'. split_and!; [done..| |].
      * intros i Hi. apply Hkept1. unfold chosen_ids. rewrite fmap_app.
        apply elem_of_app. by left.
      * intros x [->|Hx]%elem_of_cons; [|by apply Hshown].
        apply Hkept1. unfold chosen_ids. rewrite fmap_app.
        apply elem_of_app. right. by left.
Qed.

(** X10. Selecting and then registering: when a caller registers each
    item of a selection with [addChosenItem], in a browser with storage
    and on the same day, every returned id is among today's records
    afterwards, and no later selection of that day, whatever its
    candidates and count, returns an item with one of those ids. *)
Theorem shown_items_are_not_shown_again clock store items count
    (items' : list MediaItem) (count' : Z) :
  let selection := getRandomUnchosenSelection clock items count (browser_with store) in
  let registered := register_all clock selection.1 selection.2 in
  (∀ item, item ∈ selection.1 →
           id item ∈ chosen_ids (getChosenItemsToday clock registered).1)
  ∧ (∀ item item', item ∈ selection.1 →
       item' ∈ (getRandomUnchosenSelection clock items' count' registered).1 →
       id item' ≠ id item).
Proof.
  intros selection registered.
  assert (∀ item, item ∈ selection.1 →
                  id item ∈ chosen_ids (getChosenItemsToday clock registered).1)
    as Hregistered.
  { assert (selection.2 = browser_with (reconcile clock store)) as Hw1.
    { unfold selection. by rewrite getRandomUnchosenSelection_browser. }
    destruct (register_all_records clock selection.1 (reconcile clock store))
      as (store' & Hw' & Hrec' & _ & Hshown).
    - apply reconcile_idem.
    - destruct (decide (selection.1 = [])) as [?|Hsome]; [by left|right].
      assert (length selection.1
              = Z.to_nat (Z.min count
                  (Z.min (getRemainingChoices clock (browser_with store)).1
                     (Z.of_nat (length (filter
                        (λ item, id item ∉ chosen_ids
                           (getChosenItemsToday clock (browser_with store)).1)
                        items)))))) as Hlength
        by by apply selection_client_length.
      rewrite remaining_browser in Hlength.
      assert (length selection.1 ≠ 0%nat) as Hpositive
        by (by intros ?%nil_length_inv).
      unfold DAILY_LIMIT in *. lia.
    - intros item Hitem. unfold registered. rewrite Hw1, Hw'.
      rewrite today_browser, Hrec'. by apply Hshown. }
  split; [done|].
  intros item item' Hitem Hitem' Hid.
  apply selection_not_chosen in Hitem'. apply Hitem'.
  rewrite Hid. by apply Hregistered.
Qed.

End Quota.

Section Examples.
Import Instances Codec.
#[local] Existing Instance prefix_codec.
#[local] Existing Instance identity_shuffle.

Lemma quota_never_exceeded_witness :
  let store := store_of "2024-05-02" (records 19) in
  let calls :=
    [(may_2, call_addChosenItem "7"); (may_2, call_addChosenItem "8");
     (may_2, call_getRandomUnchosenSelection [item "9" []] 3);
     (may_1, call_addChosenItem "9")] in
  within_quota store
  ∧ ∃ store', after_calls calls (browser_with store) = browser_with store'
              ∧ within_quota store'.
Proof.
  intros store calls.
  assert (within_quota store) as Hstore.
  { split; apply (bool_decide_unpack _); vm_compute; exact I. }
  split; [exact Hstore|].
  exact (quota_never_exceeded calls store Hstore).
Defined.

Lemma quota_touches_two_keys_witness :
  let store : Storage := <["theme" := "dark"]> (store_of "2024-05-01" (records 2)) in
  let calls :=
    [(may_2, call_getRemainingChoices); (may_2, call_addChosenItem "7")] in
  "theme" ≠ CHOSEN_TODAY_KEY
  ∧ "theme" ≠ LAST_RESET_DATE_KEY
  ∧ ∃ store', after_calls calls (browser_with store) = browser_with store'
              ∧ store' !! "theme" = Some "dark".
Proof.
  intros store calls.
  assert ("theme" ≠ CHOSEN_TODAY_KEY) as Hchosen by done.
  assert ("theme" ≠ LAST_RESET_DATE_KEY) as Hdate by done.
  split_and!; [exact Hchosen|exact Hdate|].
  destruct (quota_touches_two_keys calls store "theme" None Hchosen Hdate)
    as [(store' & Hafter & Hkey) _].
  exists store'. split; [exact Hafter|].
  rewrite Hkey. unfold store. apply lookup_insert_eq.
Defined.

Lemma accepted_id_is_chosen_witness :
  let w := browser_with (store_of "2024-05-02" (records 2)) in
  let result := addChosenItem may_2 "7" w in
  result.1 = true
  ∧ "7" ∈ chosen_ids (getChosenItemsToday may_2 result.2).1.
Proof.
  intros w result.
  assert (result.1 = true) as Haccepted by (by vm_compute).
  split; [exact Haccepted|].
  by destruct (accepted_id_is_chosen may_2 (store_of "2024-05-02" (records 2))
                 "7" [] 0 Haccepted) as [? _].
Defined.

Lemma same_day_reads_keep_store_witness :
  let store := store_of "2024-05-02" (records 3) in
  store !! LAST_RESET_DATE_KEY = Some (getCurrentDate may_2)
  ∧ getChosenItemsToday may_2 (browser_with store)
    = (stored_records store, browser_with store).
Proof.
  intros store.
  assert (store !! LAST_RESET_DATE_KEY = Some (getCurrentDate may_2)) as Hdate
    by (by vm_compute).
  split; [exact Hdate|].
  by destruct (same_day_reads_keep_store may_2 store [] 0 Hdate) as [? _].
Defined.

End Examples.

End QuotaFacts.

(** ** The re-ranker's answer, continued *)

Module AnswerFacts.

Import JS JSFacts GeminiAI GeminiAIFacts Answers.

Lemma append_cons (x : ascii) (a b : string) :
  String x a +:+ b = String x (a +:+ b).
Proof. reflexivity. Qed.

Lemma append_assoc (a b c : string) : (a +:+ b) +:+ c = a +:+ (b +:+ c).
Proof.
  induction a as [|x a IH]; [done|]. by rewrite !append_cons, IH.
Qed.

Lemma append_nil_r (a : string) : a +:+ EmptyString = a.
Proof.
  induction a as [|x a IH]; [done|]. by rewrite append_cons, IH.
Qed.

Lemma all_digits_app (a b : string) :
  all_digits (a +:+ b) = all_digits a && all_digits b.
Proof.
  induction a as [|x a IH]; [done|]. rewrite append_cons. simpl.
  rewrite IH. by destruct (is_digit x).
Qed.

Lemma digit_is_word c : is_digit c = true → is_word c = true.
Proof. unfold is_digit, is_word. intros ->. done. Qed.

Lemma numeric_snoc run c :
  numeric run → is_digit c = true → numeric (run +:+ String c EmptyString).
Proof.
  intros [Hne Hdigits] Hc. split.
  - by destruct run.
  - rewrite all_digits_app, Hdigits. simpl. by rewrite Hc.
Qed.

(** Every run the scan holds or emits is a non-empty string of digits. *)
Lemma scan_numeric st text token :
  match st with InRun run => numeric run | _ => True end →
  token ∈ scan st text → numeric token.
Proof.
  revert st. induction text as [|c rest IH]; intros st Hst; simpl.
  - destruct st as [| |run]; [by intros ?%elem_of_nil..|].
    by intros ->%list_elem_of_singleton.
  - destruct st as [| |run].
    + destruct (is_digit c) eqn:Hc; [|destruct (is_word c); by apply IH].
      apply IH. split; [done|]. simpl. by rewrite Hc.
    + destruct (is_word c); by apply IH.
    + destruct (is_digit c) eqn:Hc; [by apply IH, numeric_snoc|].
      destruct (is_word c); [by apply IH|].
      intros [->|Hin]%elem_of_cons; [done|]. by apply (IH AtBoundary).
Qed.

(** X11. Every id read from an answer is a non-empty string of ASCII
    digits, whatever the text; so an item whose id is not of that form is
    never in the list reordered from an answer. *)
Theorem extracted_ids_are_numeric (response : string)
    (candidates : list MediaItem) :
  (∀ token, token ∈ match_numbers response → numeric token)
  ∧ (∀ i, i ∈ parseGeminiResponse response candidates → numeric i)
  ∧ (∀ item,
       item ∈ reorder (parseGeminiResponse response candidates) candidates →
       numeric (id item)).
Proof.
  assert (∀ token, token ∈ match_numbers response → numeric token) as Htokens.
  { intros token. by apply scan_numeric. }
  assert (∀ i, i ∈ parseGeminiResponse response candidates → numeric i) as Hids.
  { intros i Hi. apply Htokens. unfold parseGeminiResponse in Hi.
    eapply elem_of_submseteq in Hi; [|apply slice0_submseteq].
    by apply spread_Set_elem_of, list_elem_of_filter in Hi as [_ Hi]. }
  split_and!; [done..|].
  intros item Hitem. apply Hids.
  apply (list_elem_of_fmap_2 id) in Hitem.
  rewrite reorder_ids in Hitem.
  eapply elem_of_submseteq in Hitem; [|apply slice0_submseteq].
  by apply list_elem_of_filter in Hitem as [_ ?].
Qed.

Lemma scan_run digits run rest :
  all_digits digits = true →
  scan (InRun run) (digits +:+ rest) = scan (InRun (run +:+ digits)) rest.
Proof.
  revert run. induction digits as [|c digits IH]; intros run Hdigits.
  - by rewrite append_nil_r.
  - simpl in Hdigits. apply andb_prop in Hdigits as [Hc Hdigits].
    rewrite append_cons. simpl. rewrite Hc, IH by done.
    by rewrite append_assoc.
Qed.

Lemma scan_start i rest :
  numeric i → scan AtBoundary (i +:+ rest) = scan (InRun i) rest.
Proof.
  intros [Hne Hdigits]. destruct i as [|c digits]; [done|].
  simpl in Hdigits. apply andb_prop in Hdigits as [Hc Hdigits].
  rewrite append_cons. simpl. rewrite Hc. by rewrite scan_run.
Qed.

Lemma scan_joined (sep : ascii) (ids : list string) :
  is_word sep = false →
  (∀ i, i ∈ ids → numeric i) →
  scan AtBoundary (joined sep ids) = ids.
Proof.
  intros Hsep Hids.
  assert (is_digit sep = false) as Hsep'.
  { destruct (is_digit sep) eqn:Hd; [|done]. apply digit_is_word in Hd. congruence. }
  induction ids as [|i rest IH]; [done|].
  assert (numeric i) as Hi by (apply Hids; by left).
  assert (∀ j, j ∈ rest → numeric j) as Hrest by (intros j Hj; apply Hids; by right).
  simpl. destruct rest as [|j rest'].
  - rewrite <- (append_nil_r i) at 1. by rewrite scan_start.
  - rewrite scan_start by done. simpl scan at 1. rewrite Hsep', Hsep.
    f_equal. by apply IH.
Qed.

(** X12. The format the prompt asks for is read back as it was written:
    for ids that are non-empty strings of digits, joined by a line feed
    or by any other character that is not a word character, the scan of
    the text yields the ids, in order and with their repetitions. *)
Theorem match_numbers_of_joined (sep : ascii) (ids : list string) :
  is_word sep = false →
  (∀ i, i ∈ ids → numeric i) →
  match_numbers (joined sep ids) = ids.
Proof. apply scan_joined. Qed.

Section Reranking.
Variable candidates : list MediaItem.

Lemma parsed_valid response i :
  i ∈ parseGeminiResponse response candidates → i ∈ id <$> candidates.
Proof.
  intros Hi. unfold parseGeminiResponse in Hi.
  eapply elem_of_submseteq in Hi; [|apply slice0_submseteq].
  apply spread_Set_elem_of, list_elem_of_filter in Hi as [Hi _].
  by apply some_candidate.
Qed.

Lemma parsed_NoDup response : NoDup (parseGeminiResponse response candidates).
Proof. apply slice0_NoDup, spread_Set_NoDup. Qed.

Lemma parsed_length response :
  (length (parseGeminiResponse response candidates) ≤ 10)%nat.
Proof. unfold parseGeminiResponse. rewrite slice0_length by lia. lia. Qed.

Lemma filter_all {A} (P : A → Prop) `{∀ x, Decision (P x)} (l : list A) :
  (∀ x, x ∈ l → P x) → filter P l = l.
Proof.
  induction l as [|x l IH]; intros Hall; [done|].
  rewrite filter_cons_True by (apply Hall; by left).
  f_equal. apply IH. intros y Hy. apply Hall. by right.
Qed.

(** For ids that are distinct, at most 10 and all carried by candidates,
    the reordered list carries exactly those ids, in that order. *)
Lemma reorder_valid ids :
  NoDup ids → (length ids ≤ 10)%nat → (∀ i, i ∈ ids → i ∈ id <$> candidates) →
  id <$> reorder ids candidates = ids.
Proof.
  intros Hnodup Hlength Hvalid. rewrite reorder_ids.
  rewrite filter_all by done. rewrite slice0_nonneg by lia.
  apply take_ge. lia.
Qed.

Lemma reorder_parsed response :
  id <$> reorder (parseGeminiResponse response candidates) candidates
  = parseGeminiResponse response candidates.
Proof.
  apply reorder_valid;
    [apply parsed_NoDup|apply parsed_length|apply parsed_valid].
Qed.

(** X13. When the service answers with ids of candidates, distinct and
    at most 10, one per line, the re-ranked list is made of the
    candidates that carry those ids, in the order of the answer. *)
Theorem reranked_in_answer_order (service : Service)
    (userPreferences : list string) (userHistory : list UserInteraction)
    (ids : list string) :
  DailyChoices.falsy (GEMINI_API_KEY service) = false →
  generateContent service userPreferences (last20 userHistory) candidates
  = Return (joined newline ids) →
  NoDup ids → (length ids ≤ 10)%nat →
  (∀ i, i ∈ ids → numeric i ∧ i ∈ id <$> candidates) →
  let reranked :=
    getGeminiPersonalizedRecommendations service userPreferences userHistory
      candidates in
  id <$> reranked = ids ∧ (∀ item, item ∈ reranked → item ∈ candidates).
Proof.
  intros Hkey Hanswer Hnodup Hlength Hids reranked.
  unfold reranked, getGeminiPersonalizedRecommendations.
  rewrite Hkey, Hanswer.
  assert (parseGeminiResponse (joined newline ids) candidates = ids) as ->.
  { unfold parseGeminiResponse.
    unfold match_numbers.
    rewrite scan_joined by (done || (intros i Hi; by apply Hids)).
    rewrite filter_all by (intros i Hi; apply some_candidate; by apply Hids).
    rewrite spread_Set_fresh by done. rewrite slice0_nonneg by lia.
    apply take_ge. lia. }
  split; [|intros item; apply reorder_elem_of].
  apply reorder_valid; [done..|]. intros i Hi. by apply Hids.
Qed.

Lemma rerank_submseteq (service : Service)
    (userPreferences : list string) (userHistory : list UserInteraction) :
  getGeminiPersonalizedRecommendations service userPreferences userHistory
    candidates ⊆+ candidates.
Proof.
  unfold getGeminiPersonalizedRecommendations.
  destruct (DailyChoices.falsy (GEMINI_API_KEY service)); [done|].
  destruct (generateContent service userPreferences (last20 userHistory) candidates)
    as [response|error]; [|done].
  apply NoDup_submseteq; [|intros item; apply reorder_elem_of].
  apply (NoDup_fmap_1 id). rewrite reorder_parsed. apply parsed_NoDup.
Qed.

(** X14. The re-ranker only drops and reorders: in every case the list
    it returns is contained in the list it was given, no item more often
    than there. Without a credential, and when the request fails, it is
    the list it was given; from an answer it has at most 10 items, with
    distinct ids. *)
Theorem rerank_only_reorders (service : Service)
    (userPreferences : list string) (userHistory : list UserInteraction) :
  let reranked :=
    getGeminiPersonalizedRecommendations service userPreferences userHistory
      candidates in
  reranked ⊆+ candidates
  ∧ (DailyChoices.falsy (GEMINI_API_KEY service) = true → reranked = candidates)
  ∧ (∀ error,
       generateContent service userPreferences (last20 userHistory) candidates
       = Throw error → reranked = candidates)
  ∧ (∀ response,
       DailyChoices.falsy (GEMINI_API_KEY service) = false →
       generateContent service userPreferences (last20 userHistory) candidates
       = Return response →
       (length reranked ≤ 10)%nat ∧ NoDup (id <$> reranked)).
Proof.
  intros reranked. unfold reranked, getGeminiPersonalizedRecommendations.
  destruct (DailyChoices.falsy (GEMINI_API_KEY service)).
  { split_and!; [done|done|done|]. by intros response ?. }
  destruct (generateContent service userPreferences (last20 userHistory) candidates)
    as [response|error].
  - assert (NoDup (id <$> reorder (parseGeminiResponse response candidates) candidates))
      as Hnodup by (rewrite reorder_parsed; apply parsed_NoDup).
    split_and!; [|done|done|].
    + apply NoDup_submseteq; [by eapply NoDup_fmap_1|].
      intros item. apply reorder_elem_of.
    + intros response' _ [= <-]. split; [|done].
      rewrite <- (length_fmap id), reorder_parsed. apply parsed_length.
  - split_and!; [done|done|done|]. by intros response ? ?.
Qed.

End Reranking.

(** The digits 3 and 1 on two lines, read back and reordered. *)
Lemma match_numbers_of_joined_witness :
  is_word newline = false
  ∧ (∀ i, i ∈ ["3"; "1"] → numeric i)
  ∧ match_numbers (joined newline ["3"; "1"]) = ["3"; "1"].
Proof.
  assert (is_word newline = false) as Hsep by reflexivity.
  assert (∀ i, i ∈ ["3"; "1"] → numeric i) as Hids.
  { intros i Hi. repeat (apply elem_of_cons in Hi as [->|Hi]); [by split..|].
    by apply elem_of_nil in Hi. }
  split_and!; [exact Hsep|exact Hids|].
  exact (match_numbers_of_joined newline ["3"; "1"] Hsep Hids).
Defined.

(** A service that answers 3 and 1 on two lines. *)
Lemma reranked_in_answer_order_witness :
  let candidates :=
    [Instances.item "1" []; Instances.item "2" []; Instances.item "3" []] in
  let ids := ["3"; "1"] in
  let service :=
    {| GEMINI_API_KEY := Some "key";
       generateContent := λ _ _ _, Return (joined newline ids) |} in
  DailyChoices.falsy (GEMINI_API_KEY service) = false
  ∧ generateContent service ["Drama"] (last20 []) candidates
    = Return (joined newline ids)
  ∧ NoDup ids
  ∧ (length ids ≤ 10)%nat
  ∧ (∀ i, i ∈ ids → numeric i ∧ i ∈ id <$> candidates)
  ∧ id <$> getGeminiPersonalizedRecommendations service ["Drama"] [] candidates
    = ids.
Proof.
  intros candidates ids service.
  assert (NoDup ids) as Hnodup.
  { apply (bool_decide_unpack _). vm_compute. exact I. }
  assert (length ids ≤ 10)%nat as Hlength by (simpl; lia).
  assert (∀ i, i ∈ ids → numeric i ∧ i ∈ id <$> candidates) as Hids.
  { intros i Hi. repeat (apply elem_of_cons in Hi as [->|Hi]).
    - split; [by split|]. apply (bool_decide_unpack _). vm_compute. exact I.
    - split; [by split|]. apply (bool_decide_unpack _). vm_compute. exact I.
    - by apply elem_of_nil in Hi. }
  split_and!; [reflexivity|reflexivity|exact Hnodup|exact Hlength|exact Hids|].
  by destruct (reranked_in_answer_order candidates service ["Drama"] [] ids
                 eq_refl eq_refl Hnodup Hlength Hids) as [? _].
Defined.

End AnswerFacts.

(** ** The preference updater on a like *)

Module LikeFacts.

Import JS JSFacts Preferences PreferencesFacts.

(** What both updaters return for a found item and a like or superlike,
    up to the cap. *)
Lemma liked_capped (cap : nat) (prefs : list string) (item : MediaItem) :
  wf_preferences cap prefs →
  let result := slice0 (spread_Set (add_genres prefs item)) (Z.of_nat cap) in
  prefs `prefix_of` result
  ∧ (∀ genre, genre ∈ genres item → genre ∈ result ∨ length result = cap)
  ∧ (∀ genre, genre ∈ result → genre ∈ prefs ∨ genre ∈ genres item)
  ∧ wf_preferences cap result.
Proof.
  intros [Hnodup Hlength] result.
  assert (spread_Set (add_genres prefs item) = add_genres prefs item) as Hset.
  { apply spread_Set_fresh. by apply foldl_push_NoDup. }
  assert (result = take cap (add_genres prefs item)) as Hresult.
  { unfold result. rewrite Hset, slice0_nonneg by lia. by rewrite Nat2Z.id. }
  destruct (foldl_push_prefix prefs (genres item)) as [new Hnew].
  fold (add_genres prefs item) in Hnew.
  split_and!.
  - rewrite Hresult, Hnew. rewrite take_app_ge by done.
    by apply prefix_app_r.
  - intros genre Hgenre. rewrite Hresult.
    destruct (decide (length (add_genres prefs item) ≤ cap)%nat) as [Hfits|Hcut].
    + left. rewrite take_ge by done.
      apply foldl_push_elem_of. by right.
    + right. rewrite length_take. lia.
  - intros genre Hgenre. rewrite Hresult in Hgenre.
    eapply elem_of_submseteq in Hgenre; [|apply submseteq_take].
    by apply foldl_push_elem_of in Hgenre.
  - apply capped_wf.
Qed.

(** X15. On a like or a superlike of an item that is found, starting
    from preferences without duplicates and within the cap, both updaters
    keep the preferences they had, in their order, at the front; each
    genre of the item is in the result unless the result is full; and the
    result holds nothing but former preferences and genres of the item. *)
Theorem like_keeps_and_appends (currentPreferences : list string)
    (interaction : Interaction) (item : MediaItem) :
  like_or_superlike (i_action interaction) = true →
  (∀ allMediaItems,
     wf_preferences 15 currentPreferences →
     List.find (λ m, bool_decide (id m = i_itemId interaction)) allMediaItems
     = Some item →
     let result := updateUserProfile currentPreferences interaction allMediaItems in
     currentPreferences `prefix_of` result
     ∧ (∀ genre, genre ∈ genres item → genre ∈ result ∨ length result = 15%nat)
     ∧ (∀ genre, genre ∈ result →
          genre ∈ currentPreferences ∨ genre ∈ genres item))
  ∧ (∀ getMediaDetails,
     wf_preferences 10 currentPreferences →
     getMediaDetails (i_itemId interaction) = Some item →
     let result :=
       updateUserProfileWithInteraction getMediaDetails currentPreferences
         interaction in
     currentPreferences `prefix_of` result
     ∧ (∀ genre, genre ∈ genres item → genre ∈ result ∨ length result = 10%nat)
     ∧ (∀ genre, genre ∈ result →
          genre ∈ currentPreferences ∨ genre ∈ genres item)).
Proof.
  intros Hlike. split.
  - intros all Hwf Hfound result.
    assert (result = slice0 (spread_Set (add_genres currentPreferences item))
                       (Z.of_nat 15)) as ->.
    { unfold result, updateUserProfile. by rewrite Hlike, Hfound. }
    by destruct (liked_capped 15 currentPreferences item Hwf) as (? & ? & ? & _).
  - intros lookup Hwf Hfound result.
    assert (result = slice0 (spread_Set (add_genres currentPreferences item))
                       (Z.of_nat 10)) as ->.
    { unfold result, updateUserProfileWithInteraction. by rewrite Hfound, Hlike. }
    by destruct (liked_capped 10 currentPreferences item Hwf) as (? & ? & ? & _).
Qed.

Lemma like_keeps_and_appends_witness :
  let interaction := {| i_itemId := "1"; i_action := superlike |} in
  let liked := Instances.item "1" ["Drama"; "Comedy"] in
  like_or_superlike (i_action interaction) = true
  ∧ wf_preferences 15 ["Thriller"; "Drama"]
  ∧ ["Thriller"; "Drama"]
    `prefix_of` updateUserProfile ["Thriller"; "Drama"] interaction [liked].
Proof.
  intros interaction liked.
  assert (wf_preferences 15 ["Thriller"; "Drama"]) as Hwf.
  { split; [|simpl; lia]. apply (bool_decide_unpack _). vm_compute. exact I. }
  split_and!; [reflexivity|exact Hwf|].
  destruct (like_keeps_and_appends ["Thriller"; "Drama"] interaction liked eq_refl)
    as [Hprofile _].
  by destruct (Hprofile [liked] Hwf eq_refl) as [? _].
Defined.

End LikeFacts.

(** ** The catalog queries *)

Module CatalogFacts.

Import JS JSFacts DailyChoices DailyChoicesFacts QuotaFacts TmdbApi.

Section Catalog.
Context {json : JSON} {random : Shuffle}.
Variable clock : Clock.
Variable toLowerCase : string → string.
Implicit Types (w : World) (net : Network).

(** The context once the stored date has been reconciled. *)
#[local] Abbreviation reconciled w := ((getChosenItemsToday clock w).2).

Lemma reconciled_idem w : reconciled (reconciled w) = reconciled w.
Proof.
  destruct (World_cases w) as [Hw|[store ->]].
  - by rewrite !(getChosenItemsToday_no_storage clock w Hw).
  - rewrite (getChosenItemsToday_browser clock store). cbn [snd].
    by rewrite getChosenItemsToday_browser, reconcile_idem.
Qed.

Lemma today_reconciled w :
  (getChosenItemsToday clock (reconciled w)).1 = (getChosenItemsToday clock w).1.
Proof.
  destruct (World_cases w) as [Hw|[store ->]].
  - by rewrite !(getChosenItemsToday_no_storage clock w Hw).
  - rewrite (getChosenItemsToday_browser clock store). cbn [fst snd].
    by rewrite getChosenItemsToday_browser, reconcile_idem.
Qed.

Lemma remaining_reconciled w :
  getRemainingChoices clock (reconciled w)
  = ((getRemainingChoices clock w).1, reconciled w).
Proof.
  destruct (World_cases w) as [Hw|[store ->]].
  - rewrite (getChosenItemsToday_no_storage clock w Hw). cbn [snd].
    by rewrite getRemainingChoices_no_storage.
  - rewrite (getChosenItemsToday_browser clock store). cbn [snd].
    by rewrite !getRemainingChoices_browser, reconcile_idem.
Qed.

Lemma isDailyLimitReached_reconciled w :
  isDailyLimitReached clock w
  = ((getRemainingChoices clock w).1 <=? 0, reconciled w).
Proof.
  destruct (World_cases w) as [Hw|[store ->]].
  - by rewrite isDailyLimitReached_no_storage, getRemainingChoices_no_storage,
      getChosenItemsToday_no_storage.
  - by rewrite isDailyLimitReached_browser, getRemainingChoices_browser,
      getChosenItemsToday_browser.
Qed.

Lemma limit_reached_on_client_eq w :
  limit_reached_on_client clock w = isDailyLimitReached clock w.
Proof.
  unfold limit_reached_on_client, bind, isClientSide.
  destruct w as [window|]; [by rewrite bool_decide_eq_true_2|done].
Qed.

(** A selection of at most 20 in brief: where it leaves the context, and
    what it may hold. *)
Lemma selection_summary w items count :
  0 ≤ count ≤ DAILY_LIMIT →
  let result := getRandomUnchosenSelection clock items count w in
  result.2 = reconciled w
  ∧ result.1 ⊆+ items
  ∧ (length result.1 ≤ Z.to_nat count)%nat
  ∧ Z.of_nat (length result.1) ≤ (getRemainingChoices clock w).1
  ∧ (∀ item, item ∈ result.1 → id item ∉ chosen_ids (getChosenItemsToday clock w).1).
Proof.
  intros [Hcount Hlimit] result.
  destruct (selection_prefix clock w items count) as [_ Hworld].
  destruct (selection_bound clock w items count Hcount) as [Hlength Hsub].
  fold result in Hlength, Hsub.
  split_and!; [done..| |].
  - destruct w as [window|].
    + unfold result. rewrite selection_client_length by done.
      destruct (selection_client clock (Some window) items count) as (_ & ? & _);
        [done|]. lia.
    + rewrite getRemainingChoices_no_storage by (by left). cbn [fst]. lia.
  - intros item. apply selection_not_chosen.
Qed.

Lemma selection_when_reached w items count :
  (isDailyLimitReached clock w).1 = true →
  getRandomUnchosenSelection clock items count w = ([], reconciled w).
Proof.
  intros Hreached. rewrite isDailyLimitReached_reconciled in Hreached.
  cbn [fst] in Hreached. apply Z.leb_le in Hreached.
  destruct (selection_prefix clock w items count) as [_ Hworld].
  destruct (World_cases w) as [Hw|[store ->]].
  - rewrite getRemainingChoices_no_storage in Hreached by done. done.
  - rewrite getRemainingChoices_browser in Hreached. cbn [fst] in Hreached.
    rewrite getRandomUnchosenSelection_browser, getChosenItemsToday_browser.
    cbv zeta. cbn [snd].
    by destruct (Z.leb_spec (Z.min count (Z.max 0 (DAILY_LIMIT - Z.of_nat
                   (length (stored_records (reconcile clock store)))))) 0); [|lia].
Qed.

Lemma isDailyLimitReached_idem w :
  (isDailyLimitReached clock (reconciled w)).1 = (isDailyLimitReached clock w).1.
Proof. by rewrite !isDailyLimitReached_reconciled, remaining_reconciled. Qed.

(** [fetchPopularContent] and [searchTmdbContent] have one shape: the
    guard, then two requests, then a selection of 20. *)
Lemma guarded_selection w (answer : Outcome (list MediaItem)) :
  (let* reached := limit_reached_on_client clock in
   if reached then ret [] else
   match answer with
   | Return allItems => getRandomUnchosenSelection clock allItems 20
   | Throw _ => ret []
   end) w
  = if (isDailyLimitReached clock w).1 then ([], reconciled w)
    else match answer with
         | Return allItems =>
             ((getRandomUnchosenSelection clock allItems 20 (reconciled w)).1,
              reconciled w)
         | Throw _ => ([], reconciled w)
         end.
Proof.
  unfold bind at 1. rewrite limit_reached_on_client_eq.
  rewrite isDailyLimitReached_reconciled. cbn [fst].
  destruct (_ <=? 0); [done|]. destruct answer as [allItems|error]; [|done].
  destruct (selection_prefix clock (reconciled w) allItems 20) as [_ Hworld].
  rewrite reconciled_idem in Hworld.
  rewrite (surjective_pairing
             (getRandomUnchosenSelection clock allItems 20 (reconciled w))) at 1.
  by rewrite Hworld.
Qed.

(** What a guarded selection of 20 returns. *)
Lemma guarded_contract w (answer : Outcome (list MediaItem)) (result : list MediaItem) :
  result
  = (if (isDailyLimitReached clock w).1 then []
     else match answer with
          | Return allItems =>
              (getRandomUnchosenSelection clock allItems 20 (reconciled w)).1
          | Throw _ => []
          end) →
  ((isDailyLimitReached clock w).1 = true → result = [])
  ∧ (∀ error, answer = Throw error → result = [])
  ∧ (∀ allItems, answer = Return allItems → result ⊆+ allItems)
  ∧ (length result ≤ 20)%nat
  ∧ Z.of_nat (length result) ≤ (getRemainingChoices clock w).1
  ∧ (∀ item, item ∈ result → id item ∉ chosen_ids (getChosenItemsToday clock w).1).
Proof.
  intros ->.
  assert (0 ≤ (getRemainingChoices clock w).1) as Hremaining.
  { destruct (World_cases w) as [Hw|[store ->]].
    - by rewrite getRemainingChoices_no_storage.
    - rewrite getRemainingChoices_browser. cbn [fst]. lia. }
  destruct ((isDailyLimitReached clock w).1).
  { split_and!; try done; [intros; apply submseteq_nil_l|simpl; lia|].
    by intros item ?%elem_of_nil. }
  destruct answer as [allItems|error].
  - destruct (selection_summary (reconciled w) allItems 20)
      as (_ & Hsub & Hlength & Hroom & Hfresh); [unfold DAILY_LIMIT; lia|].
    rewrite remaining_reconciled in Hroom. rewrite today_reconciled in Hfresh.
    split_and!; try done. by intros allItems' [= <-].
  - split_and!; try done; [simpl; lia|]. by intros item ?%elem_of_nil.
Qed.

(** X16. [fetchPopularContent] and [searchTmdbContent] change the store
    by the date reconciliation only. They return the empty list when the
    daily limit is reached and when a request fails; otherwise items of
    the answer, none more often than there, at most 20 and at most as
    many as choices remain, and none whose id was chosen today. *)
Theorem catalog_queries_contract net (query : string) w :
  let popular_result := fetchPopularContent clock net w in
  let search_result := searchTmdbContent clock net query w in
  let popular_answer := both (popular net ep_movie) (popular net ep_tv) in
  let search_answer := both (search net ep_movie query) (search net ep_tv query) in
  (popular_result.2 = reconciled w
   ∧ ((isDailyLimitReached clock w).1 = true → popular_result.1 = [])
   ∧ (∀ error, popular_answer = Throw error → popular_result.1 = [])
   ∧ (∀ allItems, popular_answer = Return allItems → popular_result.1 ⊆+ allItems)
   ∧ (length popular_result.1 ≤ 20)%nat
   ∧ Z.of_nat (length popular_result.1) ≤ (getRemainingChoices clock w).1
   ∧ (∀ item, item ∈ popular_result.1 →
        id item ∉ chosen_ids (getChosenItemsToday clock w).1))
  ∧ (search_result.2 = reconciled w
     ∧ ((isDailyLimitReached clock w).1 = true → search_result.1 = [])
     ∧ (∀ error, search_answer = Throw error → search_result.1 = [])
     ∧ (∀ allItems, search_answer = Return allItems → search_result.1 ⊆+ allItems)
     ∧ (length search_result.1 ≤ 20)%nat
     ∧ Z.of_nat (length search_result.1) ≤ (getRemainingChoices clock w).1
     ∧ (∀ item, item ∈ search_result.1 →
          id item ∉ chosen_ids (getChosenItemsToday clock w).1)).
Proof.
  cbv zeta. unfold fetchPopularContent, searchTmdbContent.
  rewrite !guarded_selection.
  set (popular_answer := both (popular net ep_movie) (popular net ep_tv)).
  set (search_answer := both (search net ep_movie query) (search net ep_tv query)).
  split.
  - split.
    + by destruct ((isDailyLimitReached clock w).1), popular_answer.
    + apply (guarded_contract w popular_answer).
      by destruct ((isDailyLimitReached clock w).1), popular_answer.
  - split.
    + by destruct ((isDailyLimitReached clock w).1), search_answer.
    + apply (guarded_contract w search_answer).
      by destruct ((isDailyLimitReached clock w).1), search_answer.
Qed.

(** *** The genres of a query *)

Lemma select_genre_id_spec allGenres ids pref :
  NoDup ids →
  let ids' := select_genre_id toLowerCase allGenres ids pref in
  NoDup ids'
  ∧ (length ids' ≤ S (length ids))%nat
  ∧ (∀ i, i ∈ ids' →
       i ∈ ids ∨ ∃ g, g ∈ allGenres ∧ g_id g = i ∧ genre_matches toLowerCase pref g = true).
Proof.
  intros Hnodup. cbv zeta. unfold select_genre_id.
  destruct (List.find _ allGenres) as [g|] eqn:Hfind.
  - apply find_some in Hfind as [Hin%list_elem_of_In Hmatch].
    unfold includes. case_bool_decide as Hseen; simpl.
    + split_and!; [done|lia|]. by left.
    + split_and!.
      * apply NoDup_app. split_and!; [done| |apply NoDup_singleton].
        by intros x Hx ->%list_elem_of_singleton.
      * rewrite length_app. simpl. lia.
      * intros i [?|Hi%list_elem_of_singleton]%elem_of_app; [by left|].
        right. by exists g.
  - split_and!; [done|lia|]. by left.
Qed.

(** X17. The genre ids of a query are distinct, there is at most one
    for each preference, and each is the id of a genre of the catalog's
    lists that matches one of the preferences; no preferences, or no
    genres, give no id. *)
Theorem select_genre_ids_sound (allGenres : list TmdbGenre) (genres : list string) :
  let ids := select_genre_ids toLowerCase allGenres genres in
  NoDup ids
  ∧ (length ids ≤ length genres)%nat
  ∧ (∀ i, i ∈ ids →
       ∃ g pref, g ∈ allGenres ∧ pref ∈ genres ∧ g_id g = i
                 ∧ genre_matches toLowerCase pref g = true)
  ∧ (genres = [] → ids = [])
  ∧ (allGenres = [] → ids = []).
Proof.
  cbv zeta. unfold select_genre_ids.
  assert (∀ start,
    NoDup start →
    let ids := foldl (select_genre_id toLowerCase allGenres) start genres in
    NoDup ids
    ∧ (length ids ≤ length start + length genres)%nat
    ∧ (∀ i, i ∈ ids →
         i ∈ start ∨ ∃ g pref, g ∈ allGenres ∧ pref ∈ genres ∧ g_id g = i
                                ∧ genre_matches toLowerCase pref g = true)) as Hfold.
  { induction genres as [|pref genres IH]; intros start Hstart; cbv zeta; simpl.
    - split_and!; [done|lia|]. by left.
    - destruct (select_genre_id_spec allGenres start pref Hstart)
        as (Hnodup & Hlength & Hfrom).
      destruct (IH _ Hnodup) as (Hnodup' & Hlength' & Hfrom').
      split_and!; [done|lia|].
      intros i [Hi|(g & pref' & ? & ? & ? & ?)]%Hfrom'.
      + apply Hfrom in Hi as [?|(g & ? & ? & ?)]; [by left|].
        right. exists g, pref. split_and!; [done|by left|done..].
      + right. exists g, pref'. split_and!; [done|by right|done..]. }
  destruct (Hfold [] (NoDup_nil_2)) as (Hnodup & Hlength & Hfrom).
  split_and!; [done|done| | |].
  - intros i [?%elem_of_nil|?]%Hfrom; done.
  - by intros ->.
  - intros ->. clear. induction genres as [|pref genres IH]; [done|]. exact IH.
Qed.

(** *** The query by genres *)

Lemma fetchPopularContent_world net w :
  (fetchPopularContent clock net w).2 = reconciled w.
Proof.
  unfold fetchPopularContent. rewrite guarded_selection.
  by destruct ((isDailyLimitReached clock w).1),
    (both (popular net ep_movie) (popular net ep_tv)).
Qed.


Lemma fetchTmdbRecommendations_source net genres w :
  fetchTmdbRecommendations clock toLowerCase net genres w
  = (if (isDailyLimitReached clock w).1 then []
     else match recommendation_source clock toLowerCase net genres w with
          | Some source =>
              (getRandomUnchosenSelection clock source 20 (reconciled w)).1
          | None => []
          end,
     reconciled w).
Proof.
  unfold fetchTmdbRecommendations, recommendation_source, bind at 1.
  rewrite limit_reached_on_client_eq, isDailyLimitReached_reconciled. cbn [fst].
  destruct (_ <=? 0) eqn:Hreached; [done|].
  assert (∀ source,
    getRandomUnchosenSelection clock source 20 (reconciled w)
    = ((getRandomUnchosenSelection clock source 20 (reconciled w)).1, reconciled w))
    as Hselection.
  { intros source.
    destruct (selection_prefix clock (reconciled w) source 20) as [_ Hworld].
    rewrite reconciled_idem in Hworld.
    rewrite (surjective_pairing
               (getRandomUnchosenSelection clock source 20 (reconciled w))) at 1.
    by rewrite Hworld. }
  destruct (both (genre_list net ep_movie) (genre_list net ep_tv))
    as [allGenres|error]; [|done].
  destruct (0 <? _).
  - destruct (both (discover net ep_movie _) _) as [all|error]; [|done].
    apply Hselection.
  - unfold bind.
    rewrite (surjective_pairing (fetchPopularContent clock net (reconciled w))).
    rewrite fetchPopularContent_world, reconciled_idem.
    apply Hselection.
Qed.

Lemma fetchPopularContent_result net w :
  (fetchPopularContent clock net w).1
  = if (isDailyLimitReached clock w).1 then []
    else match both (popular net ep_movie) (popular net ep_tv) with
         | Return allItems =>
             (getRandomUnchosenSelection clock allItems 20 (reconciled w)).1
         | Throw _ => []
         end.
Proof.
  unfold fetchPopularContent. rewrite guarded_selection.
  by destruct ((isDailyLimitReached clock w).1),
    (both (popular net ep_movie) (popular net ep_tv)).
Qed.

#[local] Ltac trivial_empty :=
  try done; try (simpl; lia); try (by intros ? ?%elem_of_nil).

(** X18. [fetchTmdbRecommendations] changes the store by the date
    reconciliation only, and returns at most 20 items, at most as many as
    choices remain, none of them chosen today. It returns the empty list
    when the daily limit is reached and when a request fails. When a
    genre was selected its items are discovered items; when none was,
    they are popular items, selected twice. *)
Theorem fetchTmdbRecommendations_contract net (genres : list string) w :
  let result := fetchTmdbRecommendations clock toLowerCase net genres w in
  result.2 = reconciled w
  ∧ ((isDailyLimitReached clock w).1 = true → result.1 = [])
  ∧ (∀ error,
       both (genre_list net ep_movie) (genre_list net ep_tv) = Throw error →
       result.1 = [])
  ∧ (length result.1 ≤ 20)%nat
  ∧ Z.of_nat (length result.1) ≤ (getRemainingChoices clock w).1
  ∧ (∀ item, item ∈ result.1 →
       id item ∉ chosen_ids (getChosenItemsToday clock w).1)
  ∧ (∀ allGenres,
       both (genre_list net ep_movie) (genre_list net ep_tv) = Return allGenres →
       let ids := select_genre_ids toLowerCase allGenres genres in
       (ids ≠ [] →
          (∀ discovered,
             both (discover net ep_movie ids) (discover net ep_tv ids)
             = Return discovered → result.1 ⊆+ discovered)
          ∧ (∀ error,
               both (discover net ep_movie ids) (discover net ep_tv ids)
               = Throw error → result.1 = []))
       ∧ (ids = [] →
            (∀ allItems,
               both (popular net ep_movie) (popular net ep_tv) = Return allItems →
               result.1 ⊆+ allItems)
            ∧ (∀ error,
                 both (popular net ep_movie) (popular net ep_tv) = Throw error →
                 result.1 = []))).
Proof.
  intros result. unfold result. rewrite fetchTmdbRecommendations_source.
  cbn [fst snd].
  assert (0 ≤ (getRemainingChoices clock w).1) as Hremaining.
  { destruct (World_cases w) as [Hw|[store ->]].
    - by rewrite getRemainingChoices_no_storage.
    - rewrite getRemainingChoices_browser. cbn [fst]. lia. }
  destruct ((isDailyLimitReached clock w).1) eqn:Hreached.
  { split_and!; trivial_empty.
    intros allGenres _. split; intros _; (split; [intros; apply submseteq_nil_l|done]). }
  assert (∀ source,
    let selected := (getRandomUnchosenSelection clock source 20 (reconciled w)).1 in
    selected ⊆+ source
    ∧ (length selected ≤ 20)%nat
    ∧ Z.of_nat (length selected) ≤ (getRemainingChoices clock w).1
    ∧ (∀ item, item ∈ selected →
         id item ∉ chosen_ids (getChosenItemsToday clock w).1)) as Hselected.
  { intros source selected.
    destruct (selection_summary (reconciled w) source 20)
      as (_ & Hsub & Hlength & Hroom & Hfresh); [unfold DAILY_LIMIT; lia|].
    rewrite remaining_reconciled in Hroom. rewrite today_reconciled in Hfresh.
    done. }
  unfold recommendation_source.
  destruct (both (genre_list net ep_movie) (genre_list net ep_tv))
    as [allGenres|error].
  2:{ split_and!; trivial_empty. }
  destruct (Z.ltb_spec 0 (Z.of_nat (length (select_genre_ids toLowerCase allGenres genres))))
    as [Hsome|Hnone].
  - destruct (both (discover net ep_movie _) (discover net ep_tv _))
      as [discovered|error] eqn:Hdiscover.
    + destruct (Hselected discovered) as (Hsub & Hlength & Hroom & Hfresh).
      split_and!; try done.
      intros allGenres' [= <-]. rewrite Hdiscover. split.
      * intros _. split; [by intros ? [= <-]|done].
      * intros Hids. rewrite Hids in Hsome. simpl in Hsome. lia.
    + split_and!; trivial_empty.
      intros allGenres' [= <-]. rewrite Hdiscover. split.
      * intros _. split; [done|done].
      * intros Hids. rewrite Hids in Hsome. simpl in Hsome. lia.
  - destruct (Hselected (fetchPopularContent clock net (reconciled w)).1)
      as (Hsub & Hlength & Hroom & Hfresh).
    split_and!; try done.
    intros allGenres' [= <-]. split.
    + intros Hids. destruct (select_genre_ids _ _ _); [done|]. simpl in Hnone. lia.
    + intros _. rewrite fetchPopularContent_result in Hsub |- *.
      rewrite isDailyLimitReached_idem, Hreached, reconciled_idem in Hsub |- *.
      destruct (both (popular net ep_movie) (popular net ep_tv)) as [allItems|error].
      * split; [|done]. intros ? [= <-]. etrans; [exact Hsub|].
        by destruct (Hselected allItems) as [? _].
      * split; [done|]. intros _ _. by apply submseteq_nil_r.
Qed.

End Catalog.

End CatalogFacts.

(** ** The orchestrator, continued *)

Module OrchestratorFacts.

Import JS JSFacts DailyChoices DailyChoicesFacts QuotaFacts TmdbApi CatalogFacts.
Import Recommendations RecommendationsFacts.

Section Orchestrator.
Context {json : JSON} {random : Shuffle}.
Variable clock : Clock.
Variable gemini : GeminiAI.Service.
Variable mockMediaItems : list MediaItem.

Section Generic.
Variable fetchTmdbRecommendations : list string → T (list MediaItem).
Variable fetchPopularContent : T (list MediaItem).

#[local] Abbreviation orchestrator :=
  (getPersonalizedRecommendations clock fetchTmdbRecommendations
     fetchPopularContent gemini mockMediaItems).


(** X20. The re-ranker and the selection only drop and reorder: when the
    query by genres returns items, every recommendation is one of them,
    none more often than there; when it returns none and the query for
    popular content returns items, every recommendation is one of
    those. *)
Theorem recommendations_come_from_catalog (userPreferences : list string)
    (userHistory : list UserInteraction) (w : World) :
  ∃ recommendations,
    (orchestrator userPreferences userHistory w).1 = Return recommendations
    ∧ (∀ tmdb w1,
         fetchTmdbRecommendations userPreferences w = (Return tmdb, w1) →
         tmdb ≠ [] → recommendations ⊆+ tmdb)
    ∧ (∀ w1 popular w2,
         fetchTmdbRecommendations userPreferences w = (Return [], w1) →
         fetchPopularContent w1 = (Return popular, w2) →
         popular ≠ [] → recommendations ⊆+ popular).
Proof.
  assert (∀ tmdb w1,
    tmdb ≠ [] →
    lift (getRandomUnchosenSelection clock
            (finalRecommendations
               (GeminiAI.getGeminiPersonalizedRecommendations gemini
                  userPreferences userHistory tmdb) tmdb) 10) w1
    = (Return (getRandomUnchosenSelection clock
                 (finalRecommendations
                    (GeminiAI.getGeminiPersonalizedRecommendations gemini
                       userPreferences userHistory tmdb) tmdb) 10 w1).1,
       (getRandomUnchosenSelection clock
          (finalRecommendations
             (GeminiAI.getGeminiPersonalizedRecommendations gemini
                userPreferences userHistory tmdb) tmdb) 10 w1).2)
    ∧ (getRandomUnchosenSelection clock
         (finalRecommendations
            (GeminiAI.getGeminiPersonalizedRecommendations gemini
               userPreferences userHistory tmdb) tmdb) 10 w1).1 ⊆+ tmdb) as Hfinal.
  { intros tmdb w1 Hsome. split; [apply lift_selection|].
    etrans; [apply (selection_bound clock w1 _ 10); lia|].
    unfold finalRecommendations. destruct (0 <? _); [|done].
    apply AnswerFacts.rerank_submseteq. }
  assert (∀ l : list MediaItem, l ≠ [] → (Z.of_nat (length l) =? 0) = false) as Hlen.
  { intros [|x l] Hl; [done|]. simpl. lia. }
  destruct (orchestrator_ends_in_selection clock fetchTmdbRecommendations
              fetchPopularContent gemini mockMediaItems userPreferences userHistory w)
    as (items & w' & Hrun).
  rewrite lift_selection in Hrun. eexists. split; [by rewrite Hrun|].
  split.
  - intros tmdb w1 Htmdb Hsome.
    unfold getPersonalizedRecommendations, try_catch, bind, ret in Hrun.
    rewrite Htmdb, (Hlen tmdb Hsome) in Hrun. rewrite (Hlen tmdb Hsome) in Hrun.
    destruct (Hfinal tmdb w1 Hsome) as [Hlift Hsub].
    rewrite Hlift in Hrun. injection Hrun as Hrun _. by rewrite <- Hrun.
  - intros w1 popular w2 Htmdb Hpopular Hsome.
    unfold getPersonalizedRecommendations, try_catch, bind, ret in Hrun.
    rewrite Htmdb in Hrun. change (Z.of_nat (length []) =? 0) with true in Hrun.
    cbv iota in Hrun. rewrite Hpopular, (Hlen popular Hsome) in Hrun.
    destruct (Hfinal popular w2 Hsome) as [Hlift Hsub].
    rewrite Hlift in Hrun. injection Hrun as Hrun _. by rewrite <- Hrun.
Qed.

End Generic.

(** X21. With the catalog queries of [lib/tmdb-api.ts], whatever the
    catalog answers: once the daily limit is reached, the orchestrator
    returns the empty list, the bundled items being subject to the quota
    as well, and it changes the store by the date reconciliation only. *)
Theorem no_recommendation_once_limit_reached (toLowerCase : string → string)
    (net net' : Network) (userPreferences : list string)
    (userHistory : list UserInteraction) (w : World) :
  (isDailyLimitReached clock w).1 = true →
  getPersonalizedRecommendations clock
    (λ genres, lift (TmdbApi.fetchTmdbRecommendations clock toLowerCase net genres))
    (lift (TmdbApi.fetchPopularContent clock net'))
    gemini mockMediaItems userPreferences userHistory w
  = (Return [], (getChosenItemsToday clock w).2).
Proof.
  intros Hreached.
  unfold getPersonalizedRecommendations, try_catch, bind, ret.
  unfold lift at 1. rewrite fetchTmdbRecommendations_source, Hreached.
  change (Z.of_nat (length []) =? 0) with true. cbv iota.
  unfold lift at 1.
  rewrite (surjective_pairing (TmdbApi.fetchPopularContent clock net' _)).
  rewrite fetchPopularContent_result, fetchPopularContent_world.
  rewrite isDailyLimitReached_idem, Hreached, reconciled_idem.
  change (Z.of_nat (length []) =? 0) with true. cbv iota.
  unfold lift. rewrite selection_when_reached
    by (by rewrite isDailyLimitReached_idem).
  by rewrite reconciled_idem.
Qed.

End Orchestrator.

Section Examples.
Import Instances Codec.
#[local] Existing Instance prefix_codec.
#[local] Existing Instance identity_shuffle.

Lemma no_recommendation_once_limit_reached_witness :
  let w := browser_with (store_of "2024-05-02" (records 20)) in
  let net : Network :=
    {| genre_list := λ _, Return [{| g_id := 18; g_name := "Drama" |}];
       discover := λ _ _, Return [item "550" ["Drama"]];
       popular := λ _, Return [item "13" ["Drama"]];
       search := λ _ _, Return [];
       details := λ _ _, Throw "not found" |} in
  let gemini :=
    {| GeminiAI.GEMINI_API_KEY := None;
       GeminiAI.generateContent := λ _ _ _, Throw "no credential" |} in
  (isDailyLimitReached may_2 w).1 = true
  ∧ (getPersonalizedRecommendations may_2
       (λ genres, lift (TmdbApi.fetchTmdbRecommendations may_2 (λ s, s) net genres))
       (lift (TmdbApi.fetchPopularContent may_2 net))
       gemini [item "1" []] ["Drama"] [] w).1
    = Return [].
Proof.
  intros w net gemini.
  assert ((isDailyLimitReached may_2 w).1 = true) as Hreached by (by vm_compute).
  split; [exact Hreached|].
  by rewrite (no_recommendation_once_limit_reached may_2 gemini [item "1" []]
                (λ s, s) net net ["Drama"] [] w Hreached).
Defined.

End Examples.

End OrchestratorFacts.

(** ** Search, details and interactions *)

Module LookupFacts.

Import JS JSFacts DailyChoices DailyChoicesFacts QuotaFacts TmdbApi CatalogFacts.
Import Recommendations RecommendationsFacts MediaLookup ApiIntegration.

(** [str_includes] is the substring relation. *)
Lemma prefix_spec (p s : string) :
  String.prefix p s = true ↔ ∃ rest, s = p +:+ rest.
Proof.
  revert s. induction p as [|c p IH]; intros [|c' s]; simpl.
  - split; [intros _; by exists EmptyString|done].
  - split; [intros _; by exists (String c' s)|done].
  - split; [done|by intros [rest ?]].
  - destruct (Ascii.ascii_dec c c') as [->|Hne].
    + rewrite IH. split; intros [rest Hrest]; exists rest.
      * by rewrite AnswerFacts.append_cons, Hrest.
      * rewrite AnswerFacts.append_cons in Hrest. by injection Hrest.
    + split; [done|]. intros [rest Hrest].
      rewrite AnswerFacts.append_cons in Hrest. by injection Hrest.
Qed.

Lemma str_includes_spec (s sub : string) :
  str_includes s sub = true ↔ ∃ before after, s = before +:+ sub +:+ after.
Proof.
  induction s as [|c s IH]; cbn [str_includes].
  - rewrite orb_false_r, prefix_spec. split.
    + intros [rest Hrest]. by exists EmptyString, rest.
    + intros (before & after & Hs). destruct before; [by exists after|done].
  - rewrite orb_true_iff, IH, prefix_spec. split.
    + intros [[rest Hrest]|(before & after & ->)].
      * by exists EmptyString, rest.
      * by exists (String c before), after.
    + intros (before & after & Hs). destruct before as [|c' before].
      * left. by exists after.
      * right. rewrite AnswerFacts.append_cons in Hs. injection Hs as _ Hs.
        by exists before, after.
Qed.

Section Lookup.
Context {json : JSON} {random : Shuffle}.
Variable clock : Clock.
Variable toLowerCase : string → string.
Variable mockMediaItems : list MediaItem.

Section Details.
Variable fetchTmdbDetails : Endpoint → string → T (option MediaItem).

#[local] Abbreviation details_of := (getMediaDetails fetchTmdbDetails mockMediaItems).
#[local] Abbreviation api_details_of := (getMediaDetailsFromApi fetchTmdbDetails).

(** X22. [getMediaDetails] and [getMediaDetailsFromApi] never throw,
    whatever the catalog does. A movie that is found is returned without
    the series being asked for; otherwise the series, if it is found.
    [getMediaDetails] returns what [getMediaDetailsFromApi] returns when
    that is an item, and otherwise the first bundled item with the id,
    which exists exactly when some bundled item has the id. *)
Theorem details_priorities (id' : string) (w : World) :
  ∃ from_api final,
    api_details_of id' w = (Return from_api, final)
    ∧ details_of id' w
      = (Return (match from_api with
                 | Some found => Some found
                 | None => mock_item mockMediaItems id'
                 end), final)
    ∧ (∀ found w1,
         fetchTmdbDetails ep_movie id' w = (Return (Some found), w1) →
         from_api = Some found ∧ final = w1)
    ∧ (∀ w1 found w2,
         fetchTmdbDetails ep_movie id' w = (Return None, w1) →
         fetchTmdbDetails ep_tv id' w1 = (Return found, w2) →
         from_api = found ∧ final = w2)
    ∧ (∀ found, mock_item mockMediaItems id' = Some found →
         id found = id' ∧ found ∈ mockMediaItems)
    ∧ (mock_item mockMediaItems id' = None ↔ id' ∉ id <$> mockMediaItems).
Proof.
  assert ((∀ found, mock_item mockMediaItems id' = Some found →
             id found = id' ∧ found ∈ mockMediaItems)
          ∧ (mock_item mockMediaItems id' = None ↔ id' ∉ id <$> mockMediaItems))
    as [Hfound Hnone].
  { pose proof (GeminiAIFacts.find_by_id mockMediaItems id') as Hfind.
    unfold mock_item. destruct (List.find _ mockMediaItems) as [found|].
    - destruct Hfind as (? & ? & ?). split; [by intros ? [= <-]|]. split; done.
    - split; [done|]. split; done. }
  unfold getMediaDetails, getMediaDetailsFromApi, try_catch, bind, ret.
  destruct (fetchTmdbDetails ep_movie id' w) as [[[movie|]|error] w1].
  - eexists _, _. split_and!; [done|done| | |done|done].
    + by intros ? ? [= <- <-].
    + by intros ? ? ? [=].
  - destruct (fetchTmdbDetails ep_tv id' w1) as [[[tv|]|error] w2] eqn:Hseries;
      (eexists _, _; split_and!; [done|done| | |done|done]);
      try (by intros ? ? [=]);
      intros ? ? ? Hmovie Htv; simplify_eq; rewrite Hseries in Htv;
      by simplify_eq.
  - eexists _, _. split_and!; [done|done| | |done|done].
    + by intros ? ? [=].
    + by intros ? ? ? [=].
Qed.

End Details.

Section Search.
Variable searchTmdbContent : string → T (list MediaItem).

#[local] Abbreviation search_of :=
  (searchMedia clock toLowerCase searchTmdbContent mockMediaItems).


End Search.

End Lookup.

Section Interaction.
Variable net : Network.
Variable mockMediaItems : list MediaItem.

(** [getMediaDetails] over the catalog of [lib/tmdb-api.ts]. *)
#[local] Abbreviation details_of :=
  (getMediaDetails (λ mediaType id', ret (fetchTmdbDetails net mediaType id'))
     mockMediaItems).

(** X24. [processUserInteraction] over the catalog of [lib/tmdb-api.ts]
    never throws and leaves the store alone. When no request for the
    details of the item succeeds and no bundled item has its id, the
    callback receives the current preferences as they are, whatever the
    action; when the movie request succeeds, it receives what the updater
    makes of the movie. *)
Theorem interaction_with_catalog (itemId : string) (action : Action)
    (currentPreferences : list string) (w : World) :
  let run :=
    Interactions.processUserInteraction details_of itemId action
      currentPreferences w in
  (∃ updated, run = (Return updated, w))
  ∧ (fetchTmdbDetails net ep_movie itemId = None →
     fetchTmdbDetails net ep_tv itemId = None →
     itemId ∉ id <$> mockMediaItems →
     run = (Return currentPreferences, w))
  ∧ (∀ movie,
       details net ep_movie itemId = Return movie →
       run = (Return (Preferences.updateUserProfileWithInteraction
                        (λ _, Some movie) currentPreferences
                        {| i_itemId := itemId; i_action := action |}), w)).
Proof.
  cbv zeta.
  unfold Interactions.processUserInteraction,
    Interactions.updateUserProfileWithInteraction, getMediaDetails,
    try_catch, bind, ret. cbn [i_itemId].
  unfold fetchTmdbDetails.
  destruct (details net ep_movie itemId) as [movie|error].
  - split_and!; [by eexists|done|]. by intros ? [= <-].
  - destruct (details net ep_tv itemId) as [tv|error'].
    + split_and!; [by eexists|done|done].
    + split_and!; [by eexists| |done].
      intros _ _ Hunknown.
      pose proof (GeminiAIFacts.find_by_id mockMediaItems itemId) as Hfind.
      unfold mock_item.
      destruct (List.find _ mockMediaItems) as [found|]; [|done].
      by destruct Hfind as (_ & _ & ?).
Qed.

End Interaction.

End LookupFacts.
